(** * DVGeoSketch: the design-variable registry of pygeo's sketch-based geometry

    A shallow embedding of [pygeo/parameterization/DVGeoSketch.py].  The
    class keeps an insertion-ordered registry of design variables (DVs),
    optionally collapses them into one composite DV, registers them with an
    optimisation problem, and writes point sets to Tecplot files.

    Python objects that are mutated in place (dictionaries, the optimiser,
    the file table) are modelled by explicit state passing in a small
    state-and-exception monad; a raised exception keeps the state reached
    so far, as in Python. *)

From Stdlib Require Import PrimFloat.
From stdpp Require Import gmap strings list fin_maps.

Set Default Proof Using "Type".

(** ** Exceptions and the state-and-exception monad *)

Inductive exn : Type :=
  | ZeroDivisionError
  | KeyError (key : string)
  | AttributeError (attr : string)
  | OSError (msg : string)
  | OtherError (msg : string).

Inductive Res (A : Type) : Type :=
  | Ok (a : A)
  | Raise (e : exn).
Arguments Ok {A} a.
Arguments Raise {A} e.

Definition is_ok {A} (r : Res A) : bool :=
  match r with Ok _ => true | Raise _ => false end.

Definition rbind {A B} (r : Res A) (k : A → Res B) : Res B :=
  match r with Ok a => k a | Raise e => Raise e end.

(** A computation over a mutable world [S]: the world is returned also when
    the computation raises. *)
Definition M (S A : Type) : Type := S → Res A * S.

Definition ret {S A} (a : A) : M S A := fun s => (Ok a, s).
Definition raise {S A} (e : exn) : M S A := fun s => (Raise e, s).
Definition bind {S A B} (m : M S A) (k : A → M S B) : M S B :=
  fun s => match m s with
           | (Ok a, s') => k a s'
           | (Raise e, s') => (Raise e, s')
           end.
Definition lift {S A} (r : Res A) : M S A := fun s => (r, s).
Definition modify {S} (f : S → S) : M S unit := fun s => (Ok tt, f s).

Declare Scope py_scope.
Delimit Scope py_scope with py.
Notation "x <- m ;; k" := (bind m (fun x => k))
  (at level 100, m at next level, right associativity) : py_scope.
Notation "'do' m ;; k" := (bind m (fun _ => k))
  (at level 100, m at next level, right associativity) : py_scope.
Notation "x <-? r ;; k" := (rbind r (fun x => k))
  (at level 100, r at next level, right associativity) : py_scope.

(** ** Numeric data

    Scalars are Python floats, vectors are one-dimensional arrays and the
    composite map is a matrix given by its rows. *)
Definition vec : Type := list float.
Definition matrix : Type := list vec.

(** The coordinates of a point set: one row per point. *)
Definition coords : Type := list vec.

(** ** Design variables and the object state *)

Record DV : Type := mkDV {
  name : string;
  nVal : nat;
  value : vec;
  lower : vec;
  upper : vec;
  scale : vec
}.

(** The composite DV carries, besides the fields of a DV, the linear map
    [u] from composite space to the space of the individual DVs. *)
Record CompositeDV : Type := mkCompositeDV {
  cdv : DV;
  u : matrix
}.

(** ** Insertion-ordered dictionaries

    [OrderedDict] and, since Python 3.7, [dict]: an association list kept
    in insertion order.  [d[k] = v] replaces the value of an existing key
    where it stands and appends a new key at the end; [d.pop(k)] removes
    the key and leaves the order of the others. *)
Definition odict (V : Type) : Type := list (string * V).

Section odict.
Context {V : Type}.
Implicit Types (d : odict V) (k : string) (v : V).

Definition od_keys d : list string := d.*1.

Definition od_wf d : Prop := NoDup (od_keys d).

Fixpoint od_get k d : option V :=
  match d with
  | [] => None
  | (k', v) :: r => if decide (k = k') then Some v else od_get k r
  end.

Fixpoint od_set k v d : odict V :=
  match d with
  | [] => [(k, v)]
  | (k', v') :: r =>
      if decide (k = k') then (k, v) :: r else (k', v') :: od_set k v r
  end.

Fixpoint od_del k d : odict V :=
  match d with
  | [] => []
  | (k', v') :: r => if decide (k = k') then r else (k', v') :: od_del k r
  end.

(** [d[k]], raising [KeyError] on a missing key. *)
Definition od_getitem k d : Res V :=
  match od_get k d with Some v => Ok v | None => Raise (KeyError k) end.

(** [d.pop(k)] without a default. *)
Definition od_pop k d : Res (V * odict V) :=
  match od_get k d with
  | Some v => Ok (v, od_del k d)
  | None => Raise (KeyError k)
  end.

End odict.

(** The dictionary left by the assignments [d[k] = v] made in the order of
    [ins] on an empty dictionary. *)
Definition od_of_inserts {V} (ins : list (string * V)) : odict V :=
  fold_left (λ d kv, od_set kv.1 kv.2 d) ins [].

(** The keys of [l] in the order of their first occurrence. *)
Fixpoint first_occ (l : list string) : list string :=
  match l with
  | [] => []
  | x :: r => x :: filter (λ y, y ≠ x) (first_occ r)
  end.

(** The value most recently assigned to [k] in [ins]. *)
Fixpoint last_set {V} (k : string) (ins : list (string * V)) : option V :=
  match ins with
  | [] => None
  | (k', v) :: r =>
      match last_set k r with
      | Some x => Some x
      | None => if decide (k = k') then Some v else None
      end
  end.

(** ** The object state *)

(** What [BaseDVGeometry.__init__] leaves behind is not part of this file;
    of the attributes set outside this class only [DVComposite] is read
    here. *)
Record BaseAttrs : Type := mkBaseAttrs {
  base_fileName : string;
  base_DVComposite : option CompositeDV
}.

(** Python's float division: [a / b] raises when [b == 0.0], which holds
    for both signed zeros. *)
Definition py_truediv (a b : float) : Res float :=
  if PrimFloat.eqb b 0%float then Raise ZeroDivisionError
  else Ok (PrimFloat.div a b).

(** [o.name] for an attribute [o] that may be [None]. *)
Definition attr_name (o : option CompositeDV) : Res string :=
  match o with
  | Some c => Ok (name (cdv c))
  | None => Raise (AttributeError "name")
  end.

(** [o.u] for an attribute [o] that may be [None]. *)
Definition attr_u (o : option CompositeDV) : Res matrix :=
  match o with
  | Some c => Ok (u c)
  | None => Raise (AttributeError "u")
  end.

Section DVGeoSketch.

(** The MPI communicator is an opaque handle. *)
Variable Comm : Type.

Record DVGeoSketch : Type := mkDVGeoSketch {
  base : BaseAttrs;
  modelScale : float;
  meshScale : float;
  projTol : float;
  updatedJac : odict bool;
  comm : Comm;
  DVs : odict DV;
  useCompostiveDVs : bool;
  compositeDVs : option CompositeDV
}.

(** [self.DVComposite]: an attribute this class reads but never assigns. *)
Definition DVComposite (self : DVGeoSketch) : option CompositeDV :=
  base_DVComposite (base self).

(** The superclass constructor, which may raise. *)
Variable super_init : string → Res BaseAttrs.

(** [mapXDictToComp] is inherited; it is only reached in composite mode. *)
Variable mapXDictToComp : DVGeoSketch → odict vec → Res (odict vec).

(** The numeric kernels of the composite map (numpy products): [matvec u v]
    takes a composite-space vector to the space of the individual DVs and
    [to_composite u w] takes a full-space vector to composite space. *)
Variable matvec : matrix → vec → vec.
Variable to_composite : matrix → vec → vec.

(** The point-set update hook of the concrete geometry engine. *)
Variable update : DVGeoSketch → string → Res coords.

(** The failures of the operating system under the Tecplot primitives:
    the error, if any, met when creating a file and when writing a zone. *)
Variable open_fault : string → option exn.
Variable write_fault : string → coords → option exn.

(** [DVGeoSketch.__init__] *)
Definition __init__ (fileName : string) (comm0 : Comm)
    (scale0 projTol0 : float) : Res DVGeoSketch :=
  (b <-? super_init fileName ;;
   let modelScale0 := scale0 in
   meshScale0 <-? py_truediv 1%float scale0 ;;
   let projTol1 := PrimFloat.mul projTol0 meshScale0 in
   Ok {| base := b;
         modelScale := modelScale0;
         meshScale := meshScale0;
         projTol := projTol1;
         updatedJac := [];
         comm := comm0;
         DVs := [];
         useCompostiveDVs := false;
         compositeDVs := None |})%py.

(** The loop of [getValues]:
    [for dvName in self.DVs: dvDict[dvName] = self.DVs[dvName].value]. *)
Fixpoint getValues_loop (registry : odict DV) (names : list string)
    (dvDict : odict vec) : Res (odict vec) :=
  match names with
  | [] => Ok dvDict
  | dvName :: rest =>
      (dv <-? od_getitem dvName registry ;;
       getValues_loop registry rest (od_set dvName (value dv) dvDict))%py
  end.

(** [DVGeoSketch.getValues] *)
Definition getValues (self : DVGeoSketch) : Res (odict vec) :=
  (dvDict <-? getValues_loop (DVs self) (od_keys (DVs self)) [] ;;
   if useCompostiveDVs self then mapXDictToComp self dvDict
   else Ok dvDict)%py.

(** [DVGeoSketch.getVarNames] *)
Definition getVarNames (self : DVGeoSketch) (pyOptSparse : bool) :
    Res (list string) :=
  if negb pyOptSparse || negb (useCompostiveDVs self) then
    Ok (od_keys (DVs self))
  else
    (n <-? attr_name (compositeDVs self) ;; Ok [n])%py.

(** *** Inherited helpers

    The methods below belong to [BaseDVGeometry] and to the concrete
    engines; this file only calls them. *)

(** Modelled from the spec: [getNDV] is not defined in this file; it is
    the total number of individual DV scalars. *)
Definition getNDV (self : DVGeoSketch) : nat :=
  sum_list_with (λ kv, nVal kv.2) (DVs self).

(** The vectors of [dIn] laid end to end in the order of [names]. *)
Fixpoint flatten_dict (names : list string) (dIn : odict vec) : Res vec :=
  match names with
  | [] => Ok []
  | key :: rest =>
      (x <-? od_getitem key dIn ;;
       xs <-? flatten_dict rest dIn ;;
       Ok (x ++ xs))%py
  end.

(** Modelled from the spec: [convertDictToSensitivity] is not defined in
    this file; it concatenates the per-DV vectors in registry order and
    converts the result into composite space via the stored linear map. *)
Definition convertDictToSensitivity (self : DVGeoSketch) (dIn : odict vec) :
    Res vec :=
  (flat <-? flatten_dict (od_keys (DVs self)) dIn ;;
   m <-? attr_u (DVComposite self) ;;
   Ok (to_composite m flat))%py.

(** Modelled from the spec: [mapVecToDVGeo] is not defined in this file; it
    expands a composite-space vector to full space, [u @ v]. *)
Definition mapVecToDVGeo (self : DVGeoSketch) (userVec : vec) : Res vec :=
  (m <-? attr_u (DVComposite self) ;; Ok (matvec m userVec))%py.

(** Columns [i, i+n) of every row, ravelled. *)
Definition ravel_cols (dIdx : matrix) (i n : nat) : vec :=
  concat ((λ row, take n (drop i row)) <$> dIdx).

Fixpoint sens_slices (dvs : list (string * DV)) (dIdx : matrix) (i : nat)
    (acc : odict vec) : odict vec :=
  match dvs with
  | [] => acc
  | (key, dv) :: rest =>
      sens_slices rest dIdx (i + nVal dv)
        (od_set key (ravel_cols dIdx i (nVal dv)) acc)
  end.

(** Modelled from the spec: [convertSensitivityToDict] is not defined in
    this file; called with [out1D=True] and [useCompositeNames=False] it
    yields one entry per individual DV, keyed by the DV's name in registry
    order and holding that DV's columns of the full-space array. *)
Definition convertSensitivityToDict (self : DVGeoSketch) (dIdx : matrix) :
    Res (odict vec) :=
  Ok (sens_slices (DVs self) dIdx 0 []).

(** *** Dictionaries as shared objects

    A dictionary passed to a method is an object on the heap; the method
    sees its address.  Values are numeric arrays, which [mapXDictToDVGeo]
    never writes to: they are kept by value, so that [copy.deepcopy] is the
    copy of the dictionary into a fresh object.  [stdout] keeps what
    [print] wrote. *)
Record Mem : Type := mkMem {
  heap : list (odict vec);
  stdout : list (odict vec)
}.

Definition loc : Type := nat.

Definition load (l : loc) : M Mem (odict vec) :=
  fun m => match heap m !! l with
           | Some d => (Ok d, m)
           | None => (Raise (OtherError "no such object"), m)
           end.

Definition store (l : loc) (d : odict vec) : M Mem unit :=
  modify (λ m, {| heap := <[l := d]> (heap m); stdout := stdout m |}).

Definition alloc (d : odict vec) : M Mem loc :=
  fun m => (Ok (length (heap m)),
            {| heap := heap m ++ [d]; stdout := stdout m |}).

Definition print (l : loc) : M Mem unit :=
  (d <- load l ;;
   modify (λ m, {| heap := heap m; stdout := stdout m ++ [d] |}))%py.

Definition deepcopy (l : loc) : M Mem loc :=
  (d <- load l ;; alloc d)%py.

Definition dict_pop (l : loc) (key : string) : M Mem vec :=
  (d <- load l ;;
   r <- lift (od_pop key d) ;;
   do store l r.2 ;;
   ret r.1)%py.

Definition dict_keys (l : loc) : M Mem (list string) :=
  (d <- load l ;; ret (od_keys d))%py.

Definition dict_getitem (l : loc) (key : string) : M Mem vec :=
  (d <- load l ;; lift (od_getitem key d))%py.

Definition dict_setitem (l : loc) (key : string) (v : vec) : M Mem unit :=
  (d <- load l ;; store l (od_set key v d))%py.

(** The merge loop of [mapXDictToDVGeo]:
    [for key in inDict: outDict[key] = inDict[key]]. *)
Fixpoint merge_loop (inDict outDict : loc) (keys : list string) : M Mem unit :=
  match keys with
  | [] => ret tt
  | key :: rest =>
      (v <- dict_getitem inDict key ;;
       do dict_setitem outDict key v ;;
       merge_loop inDict outDict rest)%py
  end.

(** [DVGeoSketch.mapXDictToDVGeo]; [inDict] is rebound to the copy. *)
Definition mapXDictToDVGeo (self : DVGeoSketch) (inDict : loc) : M Mem loc :=
  (do print inDict ;;
   inDict <- deepcopy inDict ;;
   cname <- lift (attr_name (DVComposite self)) ;;
   userVec <- dict_pop inDict cname ;;
   outVec <- lift (mapVecToDVGeo self userVec) ;;
   outD <- lift (convertSensitivityToDict self [outVec]) ;;
   outDict <- alloc outD ;;
   keys <- dict_keys inDict ;;
   do merge_loop inDict outDict keys ;;
   ret outDict)%py.

(** *** The optimisation problem

    [optProb] is an external object; what this class does to it is the
    sequence of groups it registers, kept in call order. *)
Inductive OptCall : Type :=
  | addVarGroup (gname : string) (nVars : nat) (varType : string)
      (value0 lower0 upper0 scale0 : vec)
  | addConGroup (gname : string) (nCon : nat) (lower0 upper0 : vec)
      (scale0 : float) (linear : bool) (wrt : string) (jac : odict matrix).

Definition OptProb : Type := list OptCall.

Definition register (c : OptCall) : M OptProb unit :=
  modify (λ calls, calls ++ [c]).

(** The loop collecting the bounds:
    [for dvName in self.DVs: dv = self.DVs[dvName]; lb[dvName] = dv.lower;
     ub[dvName] = dv.upper]. *)
Fixpoint bounds_loop (registry : odict DV) (names : list string)
    (lb ub : odict vec) : Res (odict vec * odict vec) :=
  match names with
  | [] => Ok (lb, ub)
  | dvName :: rest =>
      (dv <-? od_getitem dvName registry ;;
       bounds_loop registry rest
         (od_set dvName (lower dv) lb) (od_set dvName (upper dv) ub))%py
  end.

(** The loop registering every DV on its own. *)
Fixpoint addVarGroup_loop (registry : odict DV) (names : list string) :
    M OptProb unit :=
  match names with
  | [] => ret tt
  | dvName :: rest =>
      (dv <- lift (od_getitem dvName registry) ;;
       do register (addVarGroup (name dv) (nVal dv) "c"
                      (value dv) (lower dv) (upper dv) (scale dv)) ;;
       addVarGroup_loop registry rest)%py
  end.

(** [DVGeoSketch.addVariablesPyOpt] *)
Definition addVariablesPyOpt (self : DVGeoSketch) : M OptProb unit :=
  if useCompostiveDVs self then
    (match compositeDVs self with
     | None => raise (AttributeError "name")
     | Some c =>
         let dv := cdv c in
         do register (addVarGroup (name dv) (nVal dv) "c"
                        (value dv) (lower dv) (upper dv) (scale dv)) ;;
         bnds <- lift (bounds_loop (DVs self) (od_keys (DVs self)) [] []) ;;
         lb <- lift (convertDictToSensitivity self bnds.1) ;;
         ub <- lift (convertDictToSensitivity self bnds.2) ;;
         cname <- lift (attr_name (DVComposite self)) ;;
         let n := getNDV self in
         wrt <- lift (attr_name (DVComposite self)) ;;
         jkey <- lift (attr_name (DVComposite self)) ;;
         jval <- lift (attr_u (DVComposite self)) ;;
         do register (addConGroup (cname +:+ "_con") n lb ub 1%float true
                        wrt [(jkey, jval)]) ;;
         ret tt
     end)%py
  else
    addVarGroup_loop (DVs self) (od_keys (DVs self)).

(** *** Tecplot files

    [openTecplot], [writeTecplot1D] and [closeTecplot] come from pyspline.
    They are modelled on a table of open handles over named files: opening
    creates or truncates the file and yields a new handle, writing appends
    a zone to the file of an open handle, closing drops the handle. *)
Record FS : Type := mkFS {
  open_files : gmap nat string;
  contents : gmap string (nat * list (string * coords));
  next_handle : nat
}.

Definition openTecplot (fileName : string) (nDim : nat) : M FS nat :=
  fun fs =>
    match open_fault fileName with
    | Some e => (Raise e, fs)
    | None =>
        let h := next_handle fs in
        (Ok h, {| open_files := <[h := fileName]> (open_files fs);
                  contents := <[fileName := (nDim, [])]> (contents fs);
                  next_handle := S h |})
    end.

Definition add_zone (zone : string * coords)
    (file : nat * list (string * coords)) : nat * list (string * coords) :=
  (file.1, file.2 ++ [zone]).

Definition writeTecplot1D (h : nat) (zname : string) (data : coords) :
    M FS unit :=
  fun fs =>
    match open_files fs !! h with
    | None => (Raise (OtherError "I/O operation on closed file"), fs)
    | Some f =>
        match write_fault zname data with
        | Some e => (Raise e, fs)
        | None =>
            (Ok tt, {| open_files := open_files fs;
                       contents := alter (add_zone (zname, data)) f (contents fs);
                       next_handle := next_handle fs |})
        end
    end.

Definition closeTecplot (h : nat) : M FS unit :=
  modify (λ fs, {| open_files := delete h (open_files fs);
                   contents := contents fs;
                   next_handle := next_handle fs |}).

(** Handles are handed out in increasing order: the open ones lie below
    the next one. *)
Definition fs_wf (fs : FS) : Prop :=
  map_Forall (λ h _, h < next_handle fs) (open_files fs).

(** [DVGeoSketch.writePointSet] *)
Definition writePointSet (self : DVGeoSketch) (pname fileName : string) :
    M FS unit :=
  (coords0 <- lift (update self pname) ;;
   let fileName := fileName +:+ ("_" +:+ pname +:+ ".dat") in
   f <- openTecplot fileName 3 ;;
   do writeTecplot1D f pname coords0 ;;
   closeTecplot f)%py.

End DVGeoSketch.

Arguments DVs {Comm} _.
Arguments useCompostiveDVs {Comm} _.
Arguments compositeDVs {Comm} _.
Arguments DVComposite {Comm} _.
Arguments modelScale {Comm} _.
Arguments meshScale {Comm} _.
Arguments projTol {Comm} _.
Arguments __init__ {Comm} _ _ _ _ _.
Arguments getValues {Comm} _ _.
Arguments getVarNames {Comm} _ _.
Arguments getNDV {Comm} _.
Arguments convertDictToSensitivity {Comm} _ _ _.
Arguments mapVecToDVGeo {Comm} _ _ _.
Arguments convertSensitivityToDict {Comm} _ _.
Arguments mapXDictToDVGeo {Comm} _ _ _.
Arguments addVariablesPyOpt {Comm} _ _.
Arguments writePointSet {Comm} _ _ _ _ _ _.

(** ** A worked scenario

    Two DVs, [twist] with three values and [shape] with one, bounds
    [-5..5] and [-1..1], and a composite DV of length two. *)
Module Scenario.

Definition twist : DV :=
  mkDV "twist" 3 [0; 1; 2]%float [-5; -5; -5]%float [5; 5; 5]%float [1; 1; 1]%float.

Definition shape : DV :=
  mkDV "shape" 1 [0.5]%float [-1]%float [1]%float [1]%float.

Definition inserts : list (string * DV) := [("twist", twist); ("shape", shape)].

Definition pca : CompositeDV :=
  mkCompositeDV
    (mkDV "pca" 2 [0; 0]%float [-10; -10]%float [10; 10]%float [1; 1]%float)
    [[1; 0]; [0; 1]; [0; 0]; [0; 0]]%float.

Definition dot (row v : vec) : float :=
  foldr (λ xy acc, (xy.1 * xy.2 + acc)%float) 0%float (zip row v).

(** [u @ v] and [u.T @ w], summing from the right. *)
Definition matvec (m : matrix) (v : vec) : vec := (λ row, dot row v) <$> m.

Definition to_composite (m : matrix) (w : vec) : vec :=
  foldr (λ rx acc, zip_with (λ a b, (a * rx.2 + b)%float) rx.1 acc)
        (replicate (length (default [] (head m))) 0%float) (zip m w).

(** A freshly constructed object, and the same with composite mode on. *)
Definition plain : DVGeoSketch unit :=
  {| base := mkBaseAttrs "wing.vsp3" None;
     modelScale := 1; meshScale := 1; projTol := 0.25;
     updatedJac := []; comm := tt;
     DVs := od_of_inserts inserts;
     useCompostiveDVs := false; compositeDVs := None |}.

Definition composite : DVGeoSketch unit :=
  {| base := mkBaseAttrs "wing.vsp3" (Some pca);
     modelScale := 1; meshScale := 1; projTol := 0.25;
     updatedJac := []; comm := tt;
     DVs := od_of_inserts inserts;
     useCompostiveDVs := true; compositeDVs := Some pca |}.

Definition no_comp (self : DVGeoSketch unit) (d : odict vec) : Res (odict vec) :=
  Raise (OtherError "mapXDictToComp").

Definition wing_pts : coords := [[0; 0; 0]; [1; 0; 0]; [1; 2; 0]]%float.

Definition update (self : DVGeoSketch unit) (pname : string) : Res coords :=
  if decide (pname = "wing") then Ok wing_pts else Raise (KeyError pname).

Definition no_fault {A} (a : A) : option exn := None.
Definition no_write_fault (zname : string) (data : coords) : option exn := None.
Definition disk_full (zname : string) (data : coords) : option exn :=
  Some (OSError "No space left on device").

Definition empty_fs : FS := mkFS ∅ ∅ 0.

(** Dictionaries of the caller: one with the composite entry and another
    key, one without the composite entry. *)
Definition xdict : odict vec := [("pca", [3; 4]%float); ("alpha", [7]%float)].
Definition no_pca : odict vec := [("alpha", [7]%float)].

End Scenario.

(** ** Reading the record of an optimisation problem *)

(** The variable group [addVariablesPyOpt] derives from a DV. *)
Definition varGroup_of (dv : DV) : OptCall :=
  addVarGroup (name dv) (nVal dv) "c" (value dv) (lower dv) (upper dv) (scale dv).

(** The names of the variable groups registered, in call order. *)
Definition varGroupNames (calls : OptProb) : list string :=
  omap (λ c, match c with
             | addVarGroup gname _ _ _ _ _ _ => Some gname
             | addConGroup _ _ _ _ _ _ _ _ => None
             end) calls.

(** The [wrt] arguments of the constraint groups registered. *)
Definition conGroupWrts (calls : OptProb) : list string :=
  omap (λ c, match c with
             | addVarGroup _ _ _ _ _ _ _ => None
             | addConGroup _ _ _ _ _ _ wrt _ => Some wrt
             end) calls.

(** Every DV is stored under its own name. *)
Definition keyed_by_name (registry : odict DV) : Prop :=
  Forall (λ kv, name kv.2 = kv.1) registry.

(** ** Objects with composite mode half set up *)
Module Cases.

(** Composite mode switched on, no composite DV stored anywhere. *)
Definition flag_only : DVGeoSketch unit :=
  {| base := mkBaseAttrs "wing.vsp3" None;
     modelScale := 1; meshScale := 1; projTol := 0.25;
     updatedJac := []; comm := tt;
     DVs := od_of_inserts Scenario.inserts;
     useCompostiveDVs := true; compositeDVs := None |}.

(** [compositeDVs] set, [DVComposite] not. *)
Definition half : DVGeoSketch unit :=
  {| base := mkBaseAttrs "wing.vsp3" None;
     modelScale := 1; meshScale := 1; projTol := 0.25;
     updatedJac := []; comm := tt;
     DVs := od_of_inserts Scenario.inserts;
     useCompostiveDVs := true; compositeDVs := Some Scenario.pca |}.

(** A hook that knows the point sets [c] and [b_c]. *)
Definition update2 (self : DVGeoSketch unit) (pname : string) : Res coords :=
  if decide (pname = "c") then Ok Scenario.wing_pts
  else if decide (pname = "b_c") then Ok [[9; 9; 9]%float]
  else Raise (KeyError pname).

Definition failing_super (fileName : string) : Res BaseAttrs :=
  Raise (OSError fileName).


(** A composite DV bearing the name of the individual DV [twist]. *)
Definition twist_comp : CompositeDV :=
  mkCompositeDV
    (mkDV "twist" 2 [0; 0]%float [-10; -10]%float [10; 10]%float [1; 1]%float)
    [[1; 0]; [0; 1]; [0; 0]; [0; 0]]%float.

Definition clash : DVGeoSketch unit :=
  {| base := mkBaseAttrs "wing.vsp3" (Some twist_comp);
     modelScale := 1; meshScale := 1; projTol := 0.25;
     updatedJac := []; comm := tt;
     DVs := od_of_inserts Scenario.inserts;
     useCompostiveDVs := true; compositeDVs := Some twist_comp |}.

Definition tdict : odict vec := [("twist", [3; 4]%float); ("alpha", [7]%float)].

End Cases.

(** * Properties *)

(** ** Ordered dictionaries *)

Ltac prop_solve := intuition (subst; try congruence; eauto).

Lemma filter_ne_notin (k : string) (l : list string) :
  k ∉ l → filter (λ x, x ≠ k) l = l.
Proof.
  induction l as [|x l IH]; [done|].
  rewrite not_elem_of_cons. intros [Hne Hl].
  rewrite filter_cons_True by congruence. f_equal. by apply IH.
Qed.

Section odict_facts.
Context {V : Type}.
Implicit Types (d : odict V) (k : string) (v : V).

Lemma od_get_None k d : od_get k d = None ↔ k ∉ od_keys d.
Proof.
  induction d as [|[k' v'] r IH]; simpl.
  - split; [intros _; apply not_elem_of_nil | done].
  - rewrite not_elem_of_cons. destruct (decide (k = k')); prop_solve.
Qed.

Lemma od_get_Some_keys k v d : od_get k d = Some v → k ∈ od_keys d.
Proof.
  intros H. destruct (decide (k ∈ od_keys d)) as [|Hn]; [done|].
  apply od_get_None in Hn. congruence.
Qed.

Lemma od_get_is_Some k d : k ∈ od_keys d → is_Some (od_get k d).
Proof.
  intros Hk. destruct (od_get k d) eqn:E; [eauto|].
  apply od_get_None in E. done.
Qed.

Lemma od_get_set k' k v d :
  od_get k' (od_set k v d) = if decide (k' = k) then Some v else od_get k' d.
Proof.
  induction d as [|[k0 v0] r IH]; simpl.
  - destruct (decide (k' = k)); done.
  - destruct (decide (k = k0)) as [->|Hne]; simpl.
    + destruct (decide (k' = k0)); done.
    + rewrite IH. destruct (decide (k' = k0)) as [->|]; [|done].
      destruct (decide (k0 = k)); congruence.
Qed.

Lemma od_keys_set_in k v d : k ∈ od_keys d → od_keys (od_set k v d) = od_keys d.
Proof.
  unfold od_keys. induction d as [|[k0 v0] r IH]; simpl.
  - intros H. by apply elem_of_nil in H.
  - intros H. destruct (decide (k = k0)) as [->|Hne]; simpl; [done|].
    f_equal. apply IH. apply elem_of_cons in H. prop_solve.
Qed.

Lemma od_keys_set_notin k v d :
  k ∉ od_keys d → od_keys (od_set k v d) = od_keys d ++ [k].
Proof.
  unfold od_keys. induction d as [|[k0 v0] r IH]; simpl; [done|].
  rewrite not_elem_of_cons. intros [Hne Hr].
  destruct (decide (k = k0)); [done|]. simpl. f_equal. by apply IH.
Qed.

Lemma od_elem_keys_set k' k v d :
  k' ∈ od_keys (od_set k v d) ↔ k' = k ∨ k' ∈ od_keys d.
Proof.
  destruct (decide (k ∈ od_keys d)) as [Hin|Hn].
  - rewrite od_keys_set_in by done. prop_solve.
  - rewrite od_keys_set_notin by done. rewrite elem_of_app, list_elem_of_singleton.
    prop_solve.
Qed.

Lemma od_wf_set k v d : od_wf d → od_wf (od_set k v d).
Proof.
  unfold od_wf. intros Hwf. destruct (decide (k ∈ od_keys d)) as [Hin|Hn].
  - by rewrite od_keys_set_in.
  - rewrite od_keys_set_notin by done. apply NoDup_app. repeat split; [done| |].
    + intros x Hx Hk. apply list_elem_of_singleton in Hk. by subst.
    + apply NoDup_singleton.
Qed.

Lemma od_keys_del k d : od_wf d → od_keys (od_del k d) = filter (λ x, x ≠ k) (od_keys d).
Proof.
  unfold od_wf, od_keys. induction d as [|[k0 v0] r IH]; csimpl; [done|].
  intros Hnd. apply NoDup_cons in Hnd as [Hk0 Hnd].
  destruct (decide (k = k0)) as [->|Hne].
  - rewrite filter_cons_False by prop_solve. by rewrite filter_ne_notin.
  - rewrite filter_cons_True by congruence. csimpl. f_equal. by apply IH.
Qed.

Lemma od_get_del k' k d :
  od_wf d → od_get k' (od_del k d) = if decide (k' = k) then None else od_get k' d.
Proof.
  intros Hwf. destruct (decide (k' = k)) as [->|Hne].
  - apply od_get_None. rewrite od_keys_del by done.
    rewrite list_elem_of_filter. prop_solve.
  - clear Hwf. induction d as [|[k0 v0] r IH]; simpl; [done|].
    destruct (decide (k = k0)) as [->|Hk]; simpl.
    + destruct (decide (k' = k0)); [done|done].
    + by rewrite IH.
Qed.

Lemma od_wf_del k d : od_wf d → od_wf (od_del k d).
Proof.
  intros Hwf. unfold od_wf. rewrite od_keys_del by done. by apply NoDup_filter.
Qed.

End odict_facts.

Lemma od_fold_get {V} (ins : list (string * V)) (d : odict V) k :
  od_get k (fold_left (λ d kv, od_set kv.1 kv.2 d) ins d) =
  match last_set k ins with Some x => Some x | None => od_get k d end.
Proof.
  revert d. induction ins as [|[k' v] r IH]; intros d; simpl; [done|].
  rewrite IH. destruct (last_set k r); [done|].
  rewrite od_get_set. simpl. by destruct (decide (k = k')).
Qed.

Lemma od_fold_wf {V} (ins : list (string * V)) (d : odict V) :
  od_wf d → od_wf (fold_left (λ d kv, od_set kv.1 kv.2 d) ins d).
Proof.
  revert d. induction ins as [|[k v] r IH]; intros d Hd; simpl; [done|].
  apply IH. by apply od_wf_set.
Qed.

Lemma od_fold_keys {V} (ins : list (string * V)) (d : odict V) :
  od_keys (fold_left (λ d kv, od_set kv.1 kv.2 d) ins d) =
  od_keys d ++ filter (λ x, x ∉ od_keys d) (first_occ ins.*1).
Proof.
  revert d. induction ins as [|[k v] r IH]; intros d; simpl.
  - by rewrite app_nil_r.
  - rewrite IH. destruct (decide (k ∈ od_keys d)) as [Hin|Hn].
    + rewrite od_keys_set_in by done.
      rewrite filter_cons_False by prop_solve.
      rewrite list_filter_filter. f_equal.
      apply list_filter_iff. intros x. split; [|prop_solve].
      intros Hx. split; [done|]. intros ->. done.
    + rewrite od_keys_set_notin by done.
      rewrite filter_cons_True by done.
      rewrite list_filter_filter, <- app_assoc. simpl. do 2 f_equal.
      apply list_filter_iff. intros x.
      rewrite not_elem_of_app, list_elem_of_singleton. prop_solve.
Qed.

Lemma od_of_inserts_keys {V} (ins : list (string * V)) :
  od_keys (od_of_inserts ins) = first_occ ins.*1.
Proof.
  unfold od_of_inserts. rewrite od_fold_keys. simpl.
  induction (first_occ ins.*1) as [|x l IH]; [done|].
  rewrite filter_cons_True by apply not_elem_of_nil. by f_equal.
Qed.

Lemma od_of_inserts_get {V} (ins : list (string * V)) k :
  od_get k (od_of_inserts ins) = last_set k ins.
Proof.
  unfold od_of_inserts. rewrite od_fold_get. by destruct (last_set k ins).
Qed.

Lemma od_of_inserts_wf {V} (ins : list (string * V)) : od_wf (od_of_inserts ins).
Proof. apply od_fold_wf. apply NoDup_nil_2. Qed.

Lemma od_set_notin {V} k (v : V) d : k ∉ od_keys d → od_set k v d = d ++ [(k, v)].
Proof.
  unfold od_keys. induction d as [|[k0 v0] r IH]; csimpl; [done|].
  rewrite not_elem_of_cons. intros [Hne Hr].
  destruct (decide (k = k0)); [done|]. f_equal. by apply IH.
Qed.

Lemma od_get_app_notin {V} k (d1 d2 : odict V) :
  k ∉ od_keys d1 → od_get k (d1 ++ d2) = od_get k d2.
Proof.
  unfold od_keys. induction d1 as [|[k0 v0] r IH]; csimpl; [done|].
  rewrite not_elem_of_cons. intros [Hne Hr].
  destruct (decide (k = k0)); [done|]. by apply IH.
Qed.

Lemma od_get_fmap {V W} (f : V → W) k (d : odict V) :
  od_get k (prod_map id f <$> d) = f <$> od_get k d.
Proof.
  induction d as [|[k0 v0] r IH]; csimpl; [done|].
  destruct (decide (k = k0)); done.
Qed.

Lemma od_keys_fmap {V W} (f : V → W) (d : odict V) :
  od_keys (prod_map id f <$> d) = od_keys d.
Proof.
  unfold od_keys. rewrite <- list_fmap_compose. by apply list_fmap_ext; intros ? [].
Qed.

Lemma od_wf_split {V} (pre post : odict V) k v :
  od_wf (pre ++ (k, v) :: post) → k ∉ od_keys pre.
Proof.
  unfold od_wf, od_keys. rewrite fmap_app.
  intros (_ & Hd & _)%NoDup_app Hin.
  apply (Hd _ Hin). csimpl. apply elem_of_cons. by left.
Qed.

Lemma first_occ_NoDup (l : list string) : NoDup l → first_occ l = l.
Proof.
  induction 1 as [|x l Hx Hl IH]; simpl; [done|].
  rewrite IH. by rewrite filter_ne_notin.
Qed.

(** ** Construction *)

Section Properties.
Context {Comm : Type}.
Implicit Types (self : DVGeoSketch Comm).

(** C10: the constructor divides by [scale] without a guard.  With
    [scale == 0] construction fails, and the failure is a
    [ZeroDivisionError] whenever the superclass constructor has returned;
    with [scale != 0] (and the superclass constructor returning)
    construction succeeds and stores [modelScale = scale],
    [meshScale = 1/scale] and [projTol = projTol * (1/scale)]. *)
Theorem init_scale (super_init : string → Res BaseAttrs)
    (fileName : string) (c : Comm) (scale0 projTol0 : float) :
  (PrimFloat.eqb scale0 0%float = true →
     is_ok (__init__ super_init fileName c scale0 projTol0) = false ∧
     ∀ b, super_init fileName = Ok b →
          __init__ super_init fileName c scale0 projTol0 = Raise ZeroDivisionError) ∧
  (PrimFloat.eqb scale0 0%float = false →
     ∀ b, super_init fileName = Ok b →
       ∃ self, __init__ super_init fileName c scale0 projTol0 = Ok self ∧
         modelScale self = scale0 ∧
         meshScale self = PrimFloat.div 1%float scale0 ∧
         projTol self = PrimFloat.mul projTol0 (PrimFloat.div 1%float scale0)).
Proof.
  unfold __init__, py_truediv. split; intros Hz; rewrite Hz.
  - split; [by destruct (super_init fileName)|].
    by intros b ->.
  - intros b ->. simpl. eexists; split; [reflexivity|]. done.
Qed.

(** ** Reading the registry *)

Lemma getValues_loop_fmap (registry pre post : odict DV) :
  od_wf registry → registry = pre ++ post →
  getValues_loop registry (od_keys post) (prod_map id value <$> pre) =
  Ok (prod_map id value <$> registry).
Proof.
  intros Hwf. revert pre. induction post as [|[k dv] post IH]; intros pre ->.
  - by rewrite app_nil_r.
  - pose proof (od_wf_split _ _ _ _ Hwf) as Hk.
    csimpl. unfold od_getitem. rewrite od_get_app_notin by done. simpl.
    rewrite decide_True by done. simpl.
    rewrite od_set_notin by (by rewrite od_keys_fmap).
    specialize (IH (pre ++ [(k, dv)])).
    rewrite fmap_app in IH. csimpl in IH. rewrite <- app_assoc in IH.
    by apply IH.
Qed.

(** C8: in non-composite mode [getValues] returns a dictionary whose keys
    are the names under which DVs were inserted into the registry, in the
    order of their first insertion, each mapped to the value of the DV
    last stored under that name. *)
Theorem getValues_noncomposite
    (mapXDictToComp : DVGeoSketch Comm → odict vec → Res (odict vec))
    self (ins : list (string * DV)) :
  useCompostiveDVs self = false →
  DVs self = od_of_inserts ins →
  ∃ dvDict, getValues mapXDictToComp self = Ok dvDict ∧
    od_wf dvDict ∧
    od_keys dvDict = first_occ ins.*1 ∧
    ∀ k, od_get k dvDict = value <$> last_set k ins.
Proof.
  intros Hflag Hreg. unfold getValues. rewrite Hflag.
  pose proof (od_of_inserts_wf ins) as Hwf. rewrite <- Hreg in Hwf.
  pose proof (getValues_loop_fmap (DVs self) [] (DVs self) Hwf eq_refl) as Hloop.
  csimpl in Hloop. rewrite Hloop. simpl.
  eexists; split; [reflexivity|]. repeat split.
  - unfold od_wf. by rewrite od_keys_fmap.
  - by rewrite od_keys_fmap, Hreg, od_of_inserts_keys.
  - intros k. by rewrite od_get_fmap, Hreg, od_of_inserts_get.
Qed.


(** ** Registering with the optimiser *)

Lemma bounds_loop_fmap (registry pre post : odict DV) :
  od_wf registry → registry = pre ++ post →
  bounds_loop registry (od_keys post)
    (prod_map id lower <$> pre) (prod_map id upper <$> pre) =
  Ok (prod_map id lower <$> registry, prod_map id upper <$> registry).
Proof.
  intros Hwf. revert pre. induction post as [|[k dv] post IH]; intros pre ->.
  - by rewrite app_nil_r.
  - pose proof (od_wf_split _ _ _ _ Hwf) as Hk.
    csimpl. unfold od_getitem. rewrite od_get_app_notin by done. simpl.
    rewrite decide_True by done. simpl.
    rewrite !od_set_notin by (by rewrite od_keys_fmap).
    specialize (IH (pre ++ [(k, dv)])).
    rewrite !fmap_app in IH. csimpl in IH. rewrite <- app_assoc in IH.
    rewrite !fmap_app. csimpl. by apply IH.
Qed.

Lemma flatten_dict_fmap (f : DV → vec) (registry pre post : odict DV) :
  od_wf registry → registry = pre ++ post →
  flatten_dict (od_keys post) (prod_map id f <$> registry) =
  Ok (concat (f <$> post.*2)).
Proof.
  intros Hwf. revert pre. induction post as [|[k dv] post IH]; intros pre ->.
  - done.
  - pose proof (od_wf_split _ _ _ _ Hwf) as Hk.
    csimpl. unfold od_getitem. rewrite od_get_fmap, od_get_app_notin by done.
    simpl. rewrite decide_True by done. simpl.
    specialize (IH (pre ++ [(k, dv)])). rewrite <- app_assoc in IH.
    by rewrite IH.
Qed.

Lemma getNDV_sum self : getNDV self = sum_list (nVal <$> (DVs self).*2).
Proof.
  unfold getNDV. induction (DVs self) as [|[k x] r IH]; csimpl; [done|].
  by rewrite IH.
Qed.

(** What the composite branch does to the optimisation problem. *)
Lemma addVariablesPyOpt_composite_run (to_composite : matrix → vec → vec)
    self (dv dc : CompositeDV) (optProb : OptProb) :
  useCompostiveDVs self = true →
  compositeDVs self = Some dv →
  DVComposite self = Some dc →
  od_wf (DVs self) →
  addVariablesPyOpt to_composite self optProb =
  (Ok tt,
   optProb ++
   [addVarGroup (name (cdv dv)) (nVal (cdv dv)) "c" (value (cdv dv))
      (lower (cdv dv)) (upper (cdv dv)) (scale (cdv dv));
    addConGroup (name (cdv dc) +:+ "_con") (getNDV self)
      (to_composite (u dc) (concat (lower <$> (DVs self).*2)))
      (to_composite (u dc) (concat (upper <$> (DVs self).*2)))
      1%float true (name (cdv dc)) [(name (cdv dc), u dc)]]).
Proof.
  intros Hflag Hdv Hdc Hwf. unfold addVariablesPyOpt. rewrite Hflag, Hdv.
  pose proof (bounds_loop_fmap (DVs self) [] (DVs self) Hwf eq_refl) as Hb.
  csimpl in Hb.
  unfold bind, register, modify, lift, ret. rewrite Hb. simpl.
  unfold convertDictToSensitivity.
  rewrite !(flatten_dict_fmap _ (DVs self) [] (DVs self) Hwf eq_refl).
  rewrite Hdc. simpl. by rewrite <- app_assoc.
Qed.

(** C2: in composite mode [addVariablesPyOpt] registers exactly one variable
    group, with the size, value, bounds and scale of the composite DV, and
    exactly one linear constraint group, named after the composite DV with
    the suffix [_con], whose size is the total number of scalars of the
    individual DVs and whose Jacobian is the stored map [u]; no individual
    DV is registered.  The variable group is read from [self.compositeDVs];
    the name and the Jacobian of the constraint from [self.DVComposite]:
    both are taken to be set.  The registry is a dictionary, so its keys
    are distinct. *)
Theorem addVariablesPyOpt_composite (to_composite : matrix → vec → vec)
    self (dv dc : CompositeDV) (optProb : OptProb) :
  useCompostiveDVs self = true →
  compositeDVs self = Some dv →
  DVComposite self = Some dc →
  od_wf (DVs self) →
  ∃ lb ub,
    addVariablesPyOpt to_composite self optProb =
    (Ok tt,
     optProb ++
     [addVarGroup (name (cdv dv)) (nVal (cdv dv)) "c" (value (cdv dv))
        (lower (cdv dv)) (upper (cdv dv)) (scale (cdv dv));
      addConGroup (name (cdv dc) +:+ "_con")
        (sum_list (nVal <$> (DVs self).*2))
        lb ub 1%float true (name (cdv dc)) [(name (cdv dc), u dc)]]).
Proof.
  intros Hflag Hdv Hdc Hwf. do 2 eexists.
  rewrite (addVariablesPyOpt_composite_run _ _ dv dc) by done.
  by rewrite getNDV_sum.
Qed.

(** C3: in composite mode the lower and upper bounds given to the linear
    constraint group are the lower, respectively upper, bounds of all
    individual DVs, concatenated in registry order and converted into
    composite space by the stored linear map. *)
Theorem addVariablesPyOpt_bounds (to_composite : matrix → vec → vec)
    self (dv dc : CompositeDV) (optProb : OptProb) :
  useCompostiveDVs self = true →
  compositeDVs self = Some dv →
  DVComposite self = Some dc →
  od_wf (DVs self) →
  ∃ var cname size sc lin wrt jac,
    addVariablesPyOpt to_composite self optProb =
    (Ok tt,
     optProb ++
     [var;
      addConGroup cname size
        (to_composite (u dc) (concat (lower <$> (DVs self).*2)))
        (to_composite (u dc) (concat (upper <$> (DVs self).*2)))
        sc lin wrt jac]).
Proof.
  intros Hflag Hdv Hdc Hwf. do 7 eexists.
  by rewrite (addVariablesPyOpt_composite_run _ _ dv dc).
Qed.

(** ** Mapping a composite dictionary to the individual DVs *)

Lemma lookup_snoc2_0 {A} (h : list A) a b : (h ++ [a; b]) !! length h = Some a.
Proof. by apply list_lookup_middle. Qed.

Lemma lookup_snoc2_1 {A} (h : list A) a b :
  (h ++ [a; b]) !! S (length h) = Some b.
Proof.
  change (h ++ [a; b]) with (h ++ [a] ++ [b]). rewrite app_assoc.
  apply list_lookup_middle. rewrite length_app. simpl. lia.
Qed.

Lemma insert_snoc1 {A} (h : list A) a x : <[length h := x]> (h ++ [a]) = h ++ [x].
Proof.
  replace (length h) with (length h + 0) by lia. by rewrite insert_app_r.
Qed.

Lemma insert_snoc2_1 {A} (h : list A) a b x :
  <[S (length h) := x]> (h ++ [a; b]) = h ++ [a; x].
Proof.
  replace (S (length h)) with (length h + 1) by lia. by rewrite insert_app_r.
Qed.

Lemma last_set_wf {V} k (d : odict V) : od_wf d → last_set k d = od_get k d.
Proof.
  unfold od_wf, od_keys. induction d as [|[k' v] r IH]; csimpl; [done|].
  intros [Hk' Hr]%NoDup_cons. rewrite IH by done.
  destruct (od_get k r) as [x|] eqn:E; [|done].
  apply od_get_Some_keys in E. rewrite decide_False; [done|].
  intros ->. done.
Qed.

Lemma sens_slices_keys (dvs : list (string * DV)) dIdx i (acc : odict vec) k :
  k ∈ od_keys (sens_slices dvs dIdx i acc) ↔ k ∈ od_keys acc ∨ k ∈ dvs.*1.
Proof.
  revert i acc. induction dvs as [|[k0 dv] r IH]; intros i acc; csimpl.
  - rewrite elem_of_nil. prop_solve.
  - rewrite IH, od_elem_keys_set, elem_of_cons. prop_solve.
Qed.

(** The merge loop only writes to [outDict]. *)
Lemma merge_loop_frame (inDict outDict : loc) keys (m : Mem) l :
  l ≠ outDict → heap (merge_loop inDict outDict keys m).2 !! l = heap m !! l.
Proof.
  intros Hl. revert m. induction keys as [|k keys IH]; intros m; [done|].
  simpl. unfold bind, dict_getitem, dict_setitem, bind, load, lift, store, modify.
  destruct (heap m !! inDict) as [d|]; [|done].
  destruct (od_getitem k d) as [v|]; [|done].
  destruct (heap m !! outDict) as [o|]; [|done].
  rewrite IH. simpl. by apply list_lookup_insert_ne.
Qed.

(** On a well-formed copy the merge loop assigns every pair of [inDict], in
    order, to [outDict]. *)
Lemma merge_loop_run (h0 : list (odict vec)) out (pre post acc : odict vec) :
  od_wf (pre ++ post) →
  merge_loop (length h0) (S (length h0)) (od_keys post)
    (mkMem (h0 ++ [pre ++ post; acc]) out) =
  (Ok tt,
   mkMem (h0 ++ [pre ++ post;
                 fold_left (λ d kv, od_set kv.1 kv.2 d) post acc]) out).
Proof.
  revert pre acc. induction post as [|[k v] post IH]; intros pre acc Hwf; [done|].
  pose proof (od_wf_split _ _ _ _ Hwf) as Hk.
  csimpl. unfold bind at 1. unfold dict_getitem, bind, load, lift. simpl.
  rewrite lookup_snoc2_0. unfold od_getitem.
  rewrite od_get_app_notin by done. simpl. rewrite decide_True by done.
  unfold dict_setitem, bind, load, store, modify. simpl.
  rewrite lookup_snoc2_1. simpl. rewrite insert_snoc2_1.
  specialize (IH (pre ++ [(k, v)]) (od_set k v acc)).
  rewrite <- app_assoc in IH. by apply IH.
Qed.

Lemma bind_ok {S A B} (c : M S A) (k : A → M S B) s a s' :
  c s = (Ok a, s') → bind c k s = k a s'.
Proof. unfold bind. by intros ->. Qed.

Lemma bind_raise {S A B} (c : M S A) (k : A → M S B) s e s' :
  c s = (Raise e, s') → bind c k s = (Raise e, s').
Proof. unfold bind. by intros ->. Qed.

Lemma print_run l (m : Mem) d :
  heap m !! l = Some d →
  print l m = (Ok tt, mkMem (heap m) (stdout m ++ [d])).
Proof. intros H. unfold print, bind, load, modify. by rewrite H. Qed.

Lemma deepcopy_run l (m : Mem) d :
  heap m !! l = Some d →
  deepcopy l m = (Ok (length (heap m)), mkMem (heap m ++ [d]) (stdout m)).
Proof. intros H. unfold deepcopy, bind, load, alloc. by rewrite H. Qed.

Lemma dict_pop_ok l (m : Mem) d key v :
  heap m !! l = Some d → od_get key d = Some v →
  dict_pop l key m = (Ok v, mkMem (<[l := od_del key d]> (heap m)) (stdout m)).
Proof.
  intros H Hk. unfold dict_pop, bind, load, lift, store, modify, od_pop, ret.
  by rewrite H, Hk.
Qed.

Lemma dict_pop_missing l (m : Mem) d key :
  heap m !! l = Some d → od_get key d = None →
  dict_pop l key m = (Raise (KeyError key), m).
Proof.
  intros H Hk. unfold dict_pop, bind, load, lift, od_pop. by rewrite H, Hk.
Qed.

Lemma dict_keys_run l (m : Mem) d :
  heap m !! l = Some d → dict_keys l m = (Ok (od_keys d), m).
Proof. intros H. unfold dict_keys, bind, load, ret. by rewrite H. Qed.

Ltac run_step lem :=
  erewrite bind_ok; [| apply lem; simpl; try eassumption; try done].

(** The first steps of [mapXDictToDVGeo]: the dictionary is printed and
    copied, and the composite name is read. *)
Lemma mapXDictToDVGeo_prefix (matvec : matrix → vec → vec) self (inDict : loc)
    (m : Mem) (d : odict vec) :
  heap m !! inDict = Some d →
  mapXDictToDVGeo matvec self inDict m =
  let m1 := mkMem (heap m ++ [d]) (stdout m ++ [d]) in
  let inDict' := length (heap m) in
  match attr_name (DVComposite self) with
  | Raise e => (Raise e, m1)
  | Ok cname =>
      (userVec <- dict_pop inDict' cname ;;
       outVec <- lift (mapVecToDVGeo matvec self userVec) ;;
       outD <- lift (convertSensitivityToDict self [outVec]) ;;
       outDict <- alloc outD ;;
       keys <- dict_keys inDict' ;;
       do merge_loop inDict' outDict keys ;;
       ret outDict)%py m1
  end.
Proof.
  intros Hd. unfold mapXDictToDVGeo.
  run_step print_run. run_step deepcopy_run. simpl.
  unfold bind at 1, lift at 1. by destruct (attr_name (DVComposite self)).
Qed.

(** Called on an address that holds no dictionary, [mapXDictToDVGeo]
    raises at once. *)
Lemma mapXDictToDVGeo_dangling (matvec : matrix → vec → vec) self (inDict : loc)
    (m : Mem) :
  heap m !! inDict = None →
  mapXDictToDVGeo matvec self inDict m = (Raise (OtherError "no such object"), m).
Proof.
  intros Hd. unfold mapXDictToDVGeo, print, bind, load. by rewrite Hd.
Qed.

(** The run of [mapXDictToDVGeo] on a dictionary holding the composite
    key: the copy, stripped of that key, and the merged result are the two
    new objects on the heap. *)
Lemma mapXDictToDVGeo_run (matvec : matrix → vec → vec) self (inDict : loc)
    (m : Mem) (d : odict vec) (dc : CompositeDV) (userVec : vec) :
  DVComposite self = Some dc →
  heap m !! inDict = Some d →
  od_wf d →
  od_get (name (cdv dc)) d = Some userVec →
  mapXDictToDVGeo matvec self inDict m =
  (Ok (S (length (heap m))),
   mkMem (heap m ++
          [od_del (name (cdv dc)) d;
           fold_left (λ o kv, od_set kv.1 kv.2 o) (od_del (name (cdv dc)) d)
             (sens_slices (DVs self) [matvec (u dc) userVec] 0 [])])
         (stdout m ++ [d])).
Proof.
  intros Hdc Hd Hwf Hget.
  rewrite (mapXDictToDVGeo_prefix _ _ _ _ _ Hd), Hdc. simpl.
  erewrite bind_ok;
    [| eapply dict_pop_ok; [by apply list_lookup_middle | exact Hget]].
  simpl. rewrite insert_snoc1.
  unfold mapVecToDVGeo, convertSensitivityToDict. rewrite Hdc. simpl.
  unfold bind at 1 2, lift at 1 2.
  unfold bind at 1, alloc at 1. simpl.
  rewrite <- app_assoc, length_app. simpl. rewrite Nat.add_1_r.
  erewrite bind_ok; [| apply dict_keys_run; simpl; apply lookup_snoc2_0].
  pose proof (merge_loop_run (heap m) (stdout m ++ [d]) []
                (od_del (name (cdv dc)) d)) as Hrun.
  simpl in Hrun.
  erewrite bind_ok; [| apply Hrun; by apply od_wf_del]. done.
Qed.

(** C5: when the composite DV is set and the input dictionary lacks its
    key, [mapXDictToDVGeo] raises [KeyError] instead of returning. *)
Theorem mapXDictToDVGeo_missing_key (matvec : matrix → vec → vec) self
    (inDict : loc) (m : Mem) (d : odict vec) (dc : CompositeDV) :
  DVComposite self = Some dc →
  heap m !! inDict = Some d →
  name (cdv dc) ∉ od_keys d →
  (mapXDictToDVGeo matvec self inDict m).1 = Raise (KeyError (name (cdv dc))).
Proof.
  intros Hdc Hd Hk. apply od_get_None in Hk.
  rewrite (mapXDictToDVGeo_prefix _ _ _ _ _ Hd), Hdc. simpl.
  erewrite bind_raise;
    [| eapply dict_pop_missing; [by apply list_lookup_middle | exact Hk]].
  done.
Qed.

(** C6: [mapXDictToDVGeo] leaves the caller's dictionary as it was, whether
    it returns or raises: every object on the heap before the call, the
    input dictionary among them, holds the same pairs afterwards. *)
Theorem mapXDictToDVGeo_input_unchanged (matvec : matrix → vec → vec) self
    (inDict : loc) (m : Mem) :
  ∀ l o, heap m !! l = Some o →
    heap (mapXDictToDVGeo matvec self inDict m).2 !! l = Some o.
Proof.
  intros l o Hl. pose proof (lookup_lt_Some _ _ _ Hl) as Hlt.
  destruct (heap m !! inDict) as [d|] eqn:Hd;
    [|by rewrite (mapXDictToDVGeo_dangling _ _ _ _ Hd)].
  rewrite (mapXDictToDVGeo_prefix _ _ _ _ _ Hd). simpl.
  destruct (attr_name (DVComposite self)) as [cname|e]; simpl;
    [|by apply lookup_app_l_Some].
  destruct (od_get cname d) as [v|] eqn:Hget.
  - erewrite bind_ok;
      [| eapply dict_pop_ok; [by apply list_lookup_middle | exact Hget]].
    simpl. rewrite insert_snoc1.
    unfold bind at 1, lift at 1.
    destruct (mapVecToDVGeo matvec self v) as [outVec|e]; simpl;
      [|by apply lookup_app_l_Some].
    unfold bind at 1 2, lift at 1, alloc at 1. simpl.
    rewrite <- app_assoc, length_app. simpl. rewrite Nat.add_1_r.
    erewrite bind_ok; [| apply dict_keys_run; simpl; apply lookup_snoc2_0].
    unfold bind, ret.
    match goal with
    | |- context [merge_loop ?a ?b ?ks ?st] =>
        pose proof (merge_loop_frame a b ks st l) as Hframe;
        destruct (merge_loop a b ks st) as [[[]|e] m']
    end; simpl in *.
    all: etrans; [apply Hframe; lia | by apply lookup_app_l_Some].
  - erewrite bind_raise;
      [| eapply dict_pop_missing; [by apply list_lookup_middle | exact Hget]].
    by apply lookup_app_l_Some.
Qed.

(** C7, as the code has it: on an input dictionary holding the composite
    key, the dictionary returned by [mapXDictToDVGeo] maps every other key
    of the input to its input value and holds every key produced by
    converting the composite entry to full space, with the converted value
    unless the input has that key too.  It holds the composite name
    exactly when an individual DV is stored under that name: the merge
    loop never puts it back, the conversion does. *)
Theorem mapXDictToDVGeo_merge (matvec : matrix → vec → vec) self
    (inDict : loc) (m : Mem) (d : odict vec) (dc : CompositeDV) (userVec : vec) :
  DVComposite self = Some dc →
  heap m !! inDict = Some d →
  od_wf d →
  od_get (name (cdv dc)) d = Some userVec →
  ∃ outDict out outVec conv,
    (mapXDictToDVGeo matvec self inDict m).1 = Ok outDict ∧
    heap (mapXDictToDVGeo matvec self inDict m).2 !! outDict = Some out ∧
    mapVecToDVGeo matvec self userVec = Ok outVec ∧
    convertSensitivityToDict self [outVec] = Ok conv ∧
    (∀ k x, k ≠ name (cdv dc) → od_get k d = Some x → od_get k out = Some x) ∧
    (name (cdv dc) ∈ od_keys out ↔ name (cdv dc) ∈ od_keys (DVs self)) ∧
    (∀ k, k ∈ od_keys conv → k ∈ od_keys out) ∧
    (∀ k, k ∉ od_keys d → od_get k out = od_get k conv).
Proof.
  intros Hdc Hd Hwf Hget.
  rewrite (mapXDictToDVGeo_run matvec self inDict m d dc userVec) by done.
  unfold mapVecToDVGeo, convertSensitivityToDict. rewrite Hdc. simpl.
  do 4 eexists. split; [done|]. split; [apply lookup_snoc2_1|].
  split; [done|]. split; [done|].
  set (cname := name (cdv dc)) in *.
  set (conv := sens_slices (DVs self) [matvec (u dc) userVec] 0 []).
  assert (∀ k, od_get k (fold_left (λ o kv, od_set kv.1 kv.2 o)
                           (od_del cname d) conv) =
               match od_get k (od_del cname d) with
               | Some x => Some x
               | None => od_get k conv
               end) as Hout.
  { intros k. rewrite od_fold_get, last_set_wf by (by apply od_wf_del). done. }
  assert (∀ k, k ∈ od_keys conv ↔ k ∈ od_keys (DVs self)) as Hconv.
  { intros k. unfold conv. rewrite sens_slices_keys. split; [|by right].
    intros [H|H]; [by apply elem_of_nil in H | done]. }
  split; [|split; [|split]].
  - intros k x Hk Hx. rewrite Hout, od_get_del by done.
    rewrite decide_False by done. by rewrite Hx.
  - rewrite <- Hconv. split.
    + intros [x Hx]%od_get_is_Some.
      rewrite Hout, od_get_del, decide_True in Hx by done.
      by eapply od_get_Some_keys.
    + intros [x Hx]%od_get_is_Some. eapply od_get_Some_keys.
      rewrite Hout, od_get_del, decide_True by done. exact Hx.
  - intros k Hk. apply od_get_is_Some in Hk as [x Hx].
    match goal with |- k ∈ od_keys ?o => destruct (od_get k o) eqn:E end;
      [by eapply od_get_Some_keys|].
    rewrite Hout in E. destruct (od_get k (od_del cname d)); congruence.
  - intros k Hk. rewrite Hout, od_get_del by done.
    apply od_get_None in Hk. rewrite Hk. by destruct (decide (k = cname)).
Qed.

(** ** Writing a point set *)

Section WritePointSet.
Variable update : DVGeoSketch Comm → string → Res coords.
Variable open_fault : string → option exn.
Variable write_fault : string → coords → option exn.

Lemma writePointSet_update_raises self pname fileName fs e :
  update self pname = Raise e →
  writePointSet update open_fault write_fault self pname fileName fs =
  (Raise e, fs).
Proof. intros H. unfold writePointSet, bind, lift. by rewrite H. Qed.

Lemma writePointSet_open_raises self pname fileName fs c e :
  update self pname = Ok c →
  open_fault (fileName +:+ "_" +:+ pname +:+ ".dat") = Some e →
  writePointSet update open_fault write_fault self pname fileName fs =
  (Raise e, fs).
Proof.
  intros Hu Ho. unfold writePointSet, bind, lift, openTecplot.
  by rewrite Hu, Ho.
Qed.

Lemma writePointSet_write_raises self pname fileName fs c e :
  update self pname = Ok c →
  open_fault (fileName +:+ "_" +:+ pname +:+ ".dat") = None →
  write_fault pname c = Some e →
  writePointSet update open_fault write_fault self pname fileName fs =
  (Raise e,
   {| open_files :=
        <[next_handle fs := fileName +:+ "_" +:+ pname +:+ ".dat"]> (open_files fs);
      contents :=
        <[fileName +:+ "_" +:+ pname +:+ ".dat" := (3, [])]> (contents fs);
      next_handle := S (next_handle fs) |}).
Proof.
  intros Hu Ho Hw. unfold writePointSet, bind, lift, openTecplot, writeTecplot1D.
  rewrite Hu, Ho. simpl. by rewrite lookup_insert_eq, Hw.
Qed.

Lemma writePointSet_returns self pname fileName fs c :
  update self pname = Ok c →
  open_fault (fileName +:+ "_" +:+ pname +:+ ".dat") = None →
  write_fault pname c = None →
  writePointSet update open_fault write_fault self pname fileName fs =
  (Ok tt,
   {| open_files := delete (next_handle fs) (open_files fs);
      contents :=
        <[fileName +:+ "_" +:+ pname +:+ ".dat" := (3, [(pname, c)])]> (contents fs);
      next_handle := S (next_handle fs) |}).
Proof.
  intros Hu Ho Hw.
  unfold writePointSet, bind, lift, openTecplot, writeTecplot1D, closeTecplot, modify.
  rewrite Hu, Ho. simpl. rewrite lookup_insert_eq, Hw. simpl.
  f_equal. f_equal.
  - by rewrite delete_insert_eq.
  - by rewrite alter_insert_eq.
Qed.

Lemma fs_wf_next_closed fs : fs_wf fs → open_files fs !! next_handle fs = None.
Proof.
  intros Hwf. destruct (open_files fs !! next_handle fs) as [f|] eqn:E; [|done].
  apply Hwf in E. simpl in E. lia.
Qed.

(** C1, as the code has it: [writePointSet] has closed the handle it opened
    whenever it returns, and opens none when the update hook or the opening
    of the file raises; but when the write of the point list raises, the
    error propagates past [closeTecplot] and the handle stays open. *)
Theorem writePointSet_handle self pname fileName fs :
  fs_wf fs →
  let r := writePointSet update open_fault write_fault self pname fileName fs in
  (is_ok r.1 = true → open_files r.2 = open_files fs) ∧
  (∀ e, update self pname = Raise e → r = (Raise e, fs)) ∧
  (∀ c e, update self pname = Ok c →
          open_fault (fileName +:+ "_" +:+ pname +:+ ".dat") = Some e →
          r = (Raise e, fs)) ∧
  (∀ c e, update self pname = Ok c →
          open_fault (fileName +:+ "_" +:+ pname +:+ ".dat") = None →
          write_fault pname c = Some e →
          r.1 = Raise e ∧
          open_files fs !! next_handle fs = None ∧
          open_files r.2 !! next_handle fs =
            Some (fileName +:+ "_" +:+ pname +:+ ".dat")).
Proof.
  intros Hwf r. pose proof (fs_wf_next_closed fs Hwf) as Hnext.
  split; [|split; [|split]].
  - unfold r. destruct (update self pname) as [c|e] eqn:Hu;
      [|by rewrite (writePointSet_update_raises _ _ _ _ _ Hu)].
    destruct (open_fault (fileName +:+ "_" +:+ pname +:+ ".dat")) as [e|] eqn:Ho;
      [by rewrite (writePointSet_open_raises _ _ _ _ _ _ Hu Ho)|].
    destruct (write_fault pname c) as [e|] eqn:Hw;
      [by rewrite (writePointSet_write_raises _ _ _ _ _ _ Hu Ho Hw)|].
    rewrite (writePointSet_returns _ _ _ _ _ Hu Ho Hw). simpl. intros _.
    by apply delete_id.
  - intros e Hu. by apply writePointSet_update_raises.
  - intros c e Hu Ho. by eapply writePointSet_open_raises.
  - intros c e Hu Ho Hw. unfold r.
    rewrite (writePointSet_write_raises _ _ _ _ _ _ Hu Ho Hw). simpl.
    by rewrite lookup_insert_eq.
Qed.

(** C9: when the update hook, the opening and the write go through,
    [writePointSet n p] leaves in the file named [p_n.dat], and in no
    other file, one zone holding the coordinates the update hook returned
    for [n], in the same order. *)
Theorem writePointSet_file self pname fileName fs c :
  update self pname = Ok c →
  open_fault (fileName +:+ "_" +:+ pname +:+ ".dat") = None →
  write_fault pname c = None →
  let r := writePointSet update open_fault write_fault self pname fileName fs in
  r.1 = Ok tt ∧
  contents r.2 !! (fileName +:+ "_" +:+ pname +:+ ".dat") = Some (3, [(pname, c)]) ∧
  ∀ f, f ≠ fileName +:+ "_" +:+ pname +:+ ".dat" →
       contents r.2 !! f = contents fs !! f.
Proof.
  intros Hu Ho Hw r. unfold r.
  rewrite (writePointSet_returns _ _ _ _ _ Hu Ho Hw). simpl.
  split; [done|]. split; [by rewrite lookup_insert_eq|].
  intros f Hf. by rewrite lookup_insert_ne.
Qed.

End WritePointSet.

End Properties.



Lemma init_scale_witness :
  let sup := λ f, Ok (mkBaseAttrs f None) in
  (__init__ (Comm := unit) sup "wing.vsp3" tt 0%float 0.25%float =
     Raise ZeroDivisionError) ∧
  PrimFloat.eqb 0.5%float 0%float = false ∧
  ∃ self : DVGeoSketch unit,
    __init__ sup "wing.vsp3" tt 0.5%float 0.25%float = Ok self ∧
    modelScale self = 0.5%float ∧
    meshScale self = 2%float ∧
    projTol self = 0.5%float.
Proof.
  split; [|split; [reflexivity|]].
  - exact (proj2 (proj1 (init_scale (λ f, Ok (mkBaseAttrs f None)) "wing.vsp3"
                           tt 0%float 0.25%float) eq_refl) _ eq_refl).
  - exact (proj2 (init_scale (λ f, Ok (mkBaseAttrs f None)) "wing.vsp3" tt
                    0.5%float 0.25%float) eq_refl _ eq_refl).
Defined.

(** The constructor also refuses the negative zero. *)
Example init_negative_zero :
  __init__ (Comm := unit) (λ f, Ok (mkBaseAttrs f None)) "wing.vsp3" tt
       (-0)%float 0.25%float = Raise ZeroDivisionError.
Proof. reflexivity. Qed.

Lemma getValues_noncomposite_witness :
  useCompostiveDVs Scenario.plain = false ∧
  DVs Scenario.plain = od_of_inserts Scenario.inserts ∧
  ∃ dvDict, getValues Scenario.no_comp Scenario.plain = Ok dvDict ∧
    od_wf dvDict ∧
    od_keys dvDict = first_occ Scenario.inserts.*1 ∧
    ∀ k, od_get k dvDict = value <$> last_set k Scenario.inserts.
Proof.
  split; [reflexivity|]. split; [reflexivity|].
  exact (getValues_noncomposite Scenario.no_comp Scenario.plain
           Scenario.inserts eq_refl eq_refl).
Defined.

(** Storing a DV again under a name keeps the place of the name and
    replaces the value. *)
Example getValues_reassigned :
  getValues Scenario.no_comp
    (mkDVGeoSketch unit (mkBaseAttrs "wing.vsp3" None) 1 1 0.25 [] tt
       (od_of_inserts
          (Scenario.inserts ++
           [("twist", mkDV "twist" 3 [4; 4; 4]%float [-5; -5; -5]%float
                        [5; 5; 5]%float [1; 1; 1]%float)]))
       false None) =
  Ok [("twist", [4; 4; 4]%float); ("shape", [0.5]%float)].
Proof. reflexivity. Qed.

Example getValues_scenario :
  getValues Scenario.no_comp Scenario.plain =
  Ok [("twist", [0; 1; 2]%float); ("shape", [0.5]%float)].
Proof. reflexivity. Qed.


Lemma addVariablesPyOpt_composite_witness :
  ∃ lb ub,
    addVariablesPyOpt Scenario.to_composite Scenario.composite [] =
    (Ok tt,
     [addVarGroup "pca" 2 "c" [0; 0]%float [-10; -10]%float [10; 10]%float
        [1; 1]%float;
      addConGroup "pca_con" 4 lb ub 1%float true "pca"
        [("pca", u Scenario.pca)]]).
Proof.
  exact (addVariablesPyOpt_composite Scenario.to_composite Scenario.composite
           Scenario.pca Scenario.pca [] eq_refl eq_refl eq_refl
           (od_of_inserts_wf Scenario.inserts)).
Defined.

Lemma addVariablesPyOpt_bounds_witness :
  ∃ var cname size sc lin wrt jac,
    addVariablesPyOpt Scenario.to_composite Scenario.composite [] =
    (Ok tt,
     [var;
      addConGroup cname size
        (Scenario.to_composite (u Scenario.pca) [-5; -5; -5; -1]%float)
        (Scenario.to_composite (u Scenario.pca) [5; 5; 5; 1]%float)
        sc lin wrt jac]).
Proof.
  exact (addVariablesPyOpt_bounds Scenario.to_composite Scenario.composite
           Scenario.pca Scenario.pca [] eq_refl eq_refl eq_refl
           (od_of_inserts_wf Scenario.inserts)).
Defined.

(** The scenario in full: one variable group of size 2, one constraint
    group of size 4 with [jac = u]. *)
Example addVariablesPyOpt_scenario :
  addVariablesPyOpt Scenario.to_composite Scenario.composite [] =
  (Ok tt,
   [addVarGroup "pca" 2 "c" [0; 0]%float [-10; -10]%float [10; 10]%float
      [1; 1]%float;
    addConGroup "pca_con" 4 [-5; -5]%float [5; 5]%float 1%float true "pca"
      [("pca", [[1; 0]; [0; 1]; [0; 0]; [0; 0]]%float)]]).
Proof. reflexivity. Qed.

(** Outside composite mode every DV is registered on its own. *)
Example addVariablesPyOpt_plain :
  addVariablesPyOpt Scenario.to_composite Scenario.plain [] =
  (Ok tt,
   [addVarGroup "twist" 3 "c" [0; 1; 2]%float [-5; -5; -5]%float
      [5; 5; 5]%float [1; 1; 1]%float;
    addVarGroup "shape" 1 "c" [0.5]%float [-1]%float [1]%float [1]%float]).
Proof. reflexivity. Qed.

Lemma mapXDictToDVGeo_missing_key_witness :
  (mapXDictToDVGeo Scenario.matvec Scenario.composite 0
     (mkMem [Scenario.no_pca] [])).1 = Raise (KeyError "pca").
Proof.
  apply (mapXDictToDVGeo_missing_key Scenario.matvec Scenario.composite 0
           (mkMem [Scenario.no_pca] []) Scenario.no_pca Scenario.pca);
    [reflexivity | reflexivity |].
  unfold Scenario.no_pca, od_keys. simpl. rewrite list_elem_of_singleton. done.
Defined.

Lemma mapXDictToDVGeo_input_unchanged_witness :
  heap (mapXDictToDVGeo Scenario.matvec Scenario.composite 0
          (mkMem [Scenario.xdict] [])).2 !! 0 = Some Scenario.xdict ∧
  heap (mapXDictToDVGeo Scenario.matvec Scenario.composite 0
          (mkMem [Scenario.no_pca] [])).2 !! 0 = Some Scenario.no_pca.
Proof.
  split.
  - exact (mapXDictToDVGeo_input_unchanged Scenario.matvec Scenario.composite 0
             (mkMem [Scenario.xdict] []) 0 Scenario.xdict eq_refl).
  - exact (mapXDictToDVGeo_input_unchanged Scenario.matvec Scenario.composite 0
             (mkMem [Scenario.no_pca] []) 0 Scenario.no_pca eq_refl).
Defined.

(** The copy loses the composite key, the caller's dictionary keeps it. *)
Example mapXDictToDVGeo_scenario :
  mapXDictToDVGeo Scenario.matvec Scenario.composite 0
    (mkMem [Scenario.xdict] []) =
  (Ok 2,
   mkMem [Scenario.xdict;
          [("alpha", [7]%float)];
          [("twist", [3; 4; 0]%float); ("shape", [0]%float);
           ("alpha", [7]%float)]]
         [Scenario.xdict]).
Proof. reflexivity. Qed.

Lemma mapXDictToDVGeo_merge_witness :
  ∃ outDict out,
    (mapXDictToDVGeo Scenario.matvec Scenario.composite 0
       (mkMem [Scenario.xdict] [])).1 = Ok outDict ∧
    heap (mapXDictToDVGeo Scenario.matvec Scenario.composite 0
            (mkMem [Scenario.xdict] [])).2 !! outDict = Some out ∧
    od_get "alpha" out = Some [7]%float ∧
    ("pca" ∉ od_keys out) ∧
    "twist" ∈ od_keys out ∧ "shape" ∈ od_keys out.
Proof.
  assert ("pca" ∉ od_keys (DVs Scenario.composite)) as Hname.
  { apply od_get_None. reflexivity. }
  assert (od_wf Scenario.xdict) as Hwf.
  { apply (od_of_inserts_wf Scenario.xdict). }
  destruct (mapXDictToDVGeo_merge Scenario.matvec Scenario.composite 0
              (mkMem [Scenario.xdict] []) Scenario.xdict Scenario.pca
              [3; 4]%float eq_refl eq_refl Hwf eq_refl)
    as (outDict & out & outVec & conv & Hr & Hh & _ & Hconv & Hpass & Hiff & Hkeys & _).
  exists outDict, out. split; [exact Hr|]. split; [exact Hh|].
  split; [by apply Hpass|].
  split; [intros Hin; exact (Hname (proj1 Hiff Hin))|].
  injection Hconv as <-.
  split; apply Hkeys;
    [apply list_elem_of_here | apply list_elem_of_further, list_elem_of_here].
Defined.

Lemma writePointSet_handle_witness :
  let r := writePointSet Scenario.update Scenario.no_fault
             Scenario.no_write_fault Scenario.plain "wing" "out"
             Scenario.empty_fs in
  fs_wf Scenario.empty_fs ∧ is_ok r.1 = true ∧
  open_files r.2 = open_files Scenario.empty_fs.
Proof.
  assert (fs_wf Scenario.empty_fs) as Hwf by apply map_Forall_empty.
  split; [exact Hwf|]. split; [reflexivity|].
  exact (proj1 (writePointSet_handle Scenario.update Scenario.no_fault
                  Scenario.no_write_fault Scenario.plain "wing" "out"
                  Scenario.empty_fs Hwf) eq_refl).
Defined.

(** A write that fails leaves the handle of [out_wing.dat] open: no handle
    was open before the call, handle [0] is open after it, so the call did
    not close what it opened. *)
Lemma writePointSet_leaks_handle :
  let r := writePointSet Scenario.update Scenario.no_fault Scenario.disk_full
             Scenario.plain "wing" "out" Scenario.empty_fs in
  r.1 = Raise (OSError "No space left on device") ∧
  open_files Scenario.empty_fs !! 0 = None ∧
  open_files r.2 !! 0 = Some "out_wing.dat" ∧
  open_files r.2 ≠ open_files Scenario.empty_fs.
Proof.
  intros r. split; [reflexivity|]. split; [reflexivity|].
  split; [reflexivity|]. intros Heq.
  assert (open_files r.2 !! 0 = open_files Scenario.empty_fs !! 0) as Hl
    by (by rewrite Heq).
  discriminate Hl.
Qed.

Lemma writePointSet_file_witness :
  let r := writePointSet Scenario.update Scenario.no_fault
             Scenario.no_write_fault Scenario.plain "wing" "out"
             Scenario.empty_fs in
  r.1 = Ok tt ∧
  contents r.2 !! "out_wing.dat" = Some (3, [("wing", Scenario.wing_pts)]).
Proof.
  pose proof (writePointSet_file Scenario.update Scenario.no_fault
                Scenario.no_write_fault Scenario.plain "wing" "out"
                Scenario.empty_fs Scenario.wing_pts eq_refl eq_refl eq_refl)
    as (Hr & Hc & _).
  split; [exact Hr | exact Hc].
Defined.

(** * Further properties *)

Section MoreProperties.
Context {Comm : Type}.
Implicit Types (self : DVGeoSketch Comm).

(** ** Registering outside composite mode *)

Lemma addVarGroup_loop_run (registry pre post : odict DV) (optProb : OptProb) :
  od_wf registry → registry = pre ++ post →
  addVarGroup_loop registry (od_keys post) optProb =
  (Ok tt, optProb ++ (varGroup_of <$> post.*2)).
Proof.
  intros Hwf. revert pre optProb.
  induction post as [|[k dv] post IH]; intros pre optProb ->.
  - csimpl. by rewrite app_nil_r.
  - pose proof (od_wf_split _ _ _ _ Hwf) as Hk.
    csimpl. unfold bind at 1, lift, od_getitem.
    rewrite od_get_app_notin by done. simpl. rewrite decide_True by done.
    unfold bind, register, modify.
    rewrite (IH (pre ++ [(k, dv)])) by (by rewrite <- app_assoc).
    by rewrite <- app_assoc.
Qed.

(** X1: outside composite mode [addVariablesPyOpt] registers one variable
    group per DV, in registry order, with the DV's own name, size, value,
    bounds and scale and the type ["c"]; it registers no constraint group
    and does not look at the composite attributes. *)
Theorem addVariablesPyOpt_noncomposite (to_composite : matrix → vec → vec)
    self (optProb : OptProb) :
  useCompostiveDVs self = false →
  od_wf (DVs self) →
  addVariablesPyOpt to_composite self optProb =
    (Ok tt, optProb ++ (varGroup_of <$> (DVs self).*2)) ∧
  conGroupWrts (varGroup_of <$> (DVs self).*2) = [] ∧
  length (varGroup_of <$> (DVs self).*2) = length (DVs self).
Proof.
  intros Hflag Hwf. unfold addVariablesPyOpt. rewrite Hflag.
  split; [by apply (addVarGroup_loop_run (DVs self) [])|].
  split; [|by rewrite !length_fmap].
  induction ((DVs self).*2) as [|dv l IH]; [done|]. csimpl. exact IH.
Qed.

(** X2: in composite mode a missing composite attribute makes
    [addVariablesPyOpt] raise.  With [compositeDVs] unset nothing is
    registered; with [compositeDVs] set and [DVComposite] unset the
    variable group is registered before the error, and stays. *)
Theorem addVariablesPyOpt_composite_unset (to_composite : matrix → vec → vec)
    self (optProb : OptProb) :
  useCompostiveDVs self = true →
  od_wf (DVs self) →
  (compositeDVs self = None →
     addVariablesPyOpt to_composite self optProb =
     (Raise (AttributeError "name"), optProb)) ∧
  (∀ dv, compositeDVs self = Some dv → DVComposite self = None →
     is_ok (addVariablesPyOpt to_composite self optProb).1 = false ∧
     (addVariablesPyOpt to_composite self optProb).2 =
       optProb ++ [varGroup_of (cdv dv)]).
Proof.
  intros Hflag Hwf. unfold addVariablesPyOpt. rewrite Hflag. split.
  - by intros ->.
  - intros dv -> Hdc.
    pose proof (bounds_loop_fmap (DVs self) [] (DVs self) Hwf eq_refl) as Hb.
    csimpl in Hb.
    unfold bind, register, modify, lift, ret. rewrite Hb. simpl.
    unfold convertDictToSensitivity.
    rewrite (flatten_dict_fmap _ (DVs self) [] (DVs self) Hwf eq_refl).
    by rewrite Hdc.
Qed.

Lemma varGroupNames_fmap (l : list DV) :
  varGroupNames (varGroup_of <$> l) = name <$> l.
Proof. induction l as [|dv l IH]; [done|]. csimpl. by rewrite IH. Qed.

Lemma keyed_by_name_keys (registry : odict DV) :
  keyed_by_name registry → name <$> registry.*2 = od_keys registry.
Proof.
  unfold od_keys. induction 1 as [|[k dv] l Hk Hl IH]; [done|].
  csimpl in *. by rewrite Hk, IH.
Qed.

(** X3: the names [getVarNames] gives to the optimiser are the names of
    the variable groups [addVariablesPyOpt] registers, in the same order,
    in either mode, every DV being stored under its own name. *)
Theorem addVariablesPyOpt_names_getVarNames (to_composite : matrix → vec → vec)
    self (optProb : OptProb) :
  keyed_by_name (DVs self) →
  od_wf (DVs self) →
  (useCompostiveDVs self = true →
     is_Some (compositeDVs self) ∧ is_Some (DVComposite self)) →
  ∃ new,
    addVariablesPyOpt to_composite self optProb = (Ok tt, optProb ++ new) ∧
    getVarNames self true = Ok (varGroupNames new).
Proof.
  intros Hkeyed Hwf Hcomp.
  destruct (useCompostiveDVs self) eqn:Hflag.
  - destruct (Hcomp eq_refl) as [[dv Hdv] [dc Hdc]].
    eexists. split.
    + by apply (addVariablesPyOpt_composite_run _ _ dv dc).
    + unfold getVarNames. by rewrite Hflag, Hdv.
  - eexists. split.
    + unfold addVariablesPyOpt. rewrite Hflag.
      by apply (addVarGroup_loop_run (DVs self) []).
    + unfold getVarNames. rewrite Hflag. simpl.
      by rewrite varGroupNames_fmap, keyed_by_name_keys.
Qed.

(** X4: in composite mode the constraint group is taken with respect to
    [DVComposite.name] while the variable group is registered under
    [compositeDVs.name]: the constraint refers to the registered variable
    group exactly when the two attributes carry the same name. *)
Theorem addVariablesPyOpt_wrt (to_composite : matrix → vec → vec)
    self (dv dc : CompositeDV) (optProb : OptProb) :
  useCompostiveDVs self = true →
  compositeDVs self = Some dv →
  DVComposite self = Some dc →
  od_wf (DVs self) →
  ∃ new,
    addVariablesPyOpt to_composite self optProb = (Ok tt, optProb ++ new) ∧
    varGroupNames new = [name (cdv dv)] ∧
    conGroupWrts new = [name (cdv dc)] ∧
    (conGroupWrts new ⊆ varGroupNames new ↔ name (cdv dc) = name (cdv dv)).
Proof.
  intros Hflag Hdv Hdc Hwf. eexists. split.
  { by apply (addVariablesPyOpt_composite_run _ _ dv dc). }
  split; [done|]. split; [done|]. simpl. split.
  - intros Hsub. specialize (Hsub (name (cdv dc))).
    by apply list_elem_of_singleton, Hsub, list_elem_of_singleton.
  - intros ->. done.
Qed.

(** ** Reading the registry *)

(** X5: outside composite mode the names returned by [getVarNames], with
    or without the optimiser flag, are the keys of the dictionary returned
    by [getValues], in the same order. *)
Theorem getVarNames_keys_getValues
    (mapXDictToComp : DVGeoSketch Comm → odict vec → Res (odict vec))
    self (pyOptSparse : bool) :
  useCompostiveDVs self = false →
  od_wf (DVs self) →
  ∃ dvDict, getValues mapXDictToComp self = Ok dvDict ∧
    getVarNames self pyOptSparse = Ok (od_keys dvDict).
Proof.
  intros Hflag Hwf. unfold getValues, getVarNames. rewrite Hflag.
  pose proof (getValues_loop_fmap (DVs self) [] (DVs self) Hwf eq_refl) as Hloop.
  csimpl in Hloop. rewrite Hloop. simpl. eexists. split; [done|].
  rewrite od_keys_fmap. by destruct pyOptSparse.
Qed.

(** X6: in composite mode [getValues] hands [mapXDictToComp] the complete
    dictionary of the individual DVs' values, in registry order, and
    returns what it returns, an error included. *)
Theorem getValues_composite
    (mapXDictToComp : DVGeoSketch Comm → odict vec → Res (odict vec)) self :
  useCompostiveDVs self = true →
  od_wf (DVs self) →
  getValues mapXDictToComp self =
  mapXDictToComp self (prod_map id value <$> DVs self).
Proof.
  intros Hflag Hwf. unfold getValues. rewrite Hflag.
  pose proof (getValues_loop_fmap (DVs self) [] (DVs self) Hwf eq_refl) as Hloop.
  csimpl in Hloop. by rewrite Hloop.
Qed.

(** ** Construction *)

(** X7: construction succeeds exactly when the superclass constructor
    returns and [scale] is not zero; an error of the superclass
    constructor is the one raised, also when [scale] is zero. *)
Theorem init_succeeds_iff (super_init : string → Res BaseAttrs)
    (fileName : string) (c : Comm) (scale0 projTol0 : float) :
  is_ok (__init__ super_init fileName c scale0 projTol0) =
    is_ok (super_init fileName) && negb (PrimFloat.eqb scale0 0%float) ∧
  ∀ e, super_init fileName = Raise e →
       __init__ super_init fileName c scale0 projTol0 = Raise e.
Proof.
  unfold __init__, py_truediv. split.
  - destruct (super_init fileName); [|done]. simpl.
    by destruct (PrimFloat.eqb scale0 0).
  - by intros e ->.
Qed.

(** X8: an object that has just been constructed has no DVs and is not
    in composite mode: [getValues] returns the empty dictionary,
    [getVarNames] the empty list, and [addVariablesPyOpt] registers
    nothing. *)
Theorem init_fresh (super_init : string → Res BaseAttrs)
    (mapXDictToComp : DVGeoSketch Comm → odict vec → Res (odict vec))
    (to_composite : matrix → vec → vec)
    (fileName : string) (c : Comm) (scale0 projTol0 : float) self
    (pyOptSparse : bool) (optProb : OptProb) :
  __init__ super_init fileName c scale0 projTol0 = Ok self →
  getValues mapXDictToComp self = Ok [] ∧
  getVarNames self pyOptSparse = Ok [] ∧
  addVariablesPyOpt to_composite self optProb = (Ok tt, optProb).
Proof.
  unfold __init__, py_truediv.
  destruct (super_init fileName) as [b|]; [|done]. simpl.
  destruct (PrimFloat.eqb scale0 0); [done|]. simpl.
  intros [= <-]. split; [done|]. split; [by destruct pyOptSparse|done].
Qed.

End MoreProperties.

Section MoreMapping.
Context {Comm : Type}.
Implicit Types (self : DVGeoSketch Comm).

(** ** Mapping a composite dictionary: objects, order, output *)

(** The merge loop neither prints nor allocates. *)
Lemma merge_loop_keeps (inDict outDict : loc) keys (m : Mem) :
  stdout (merge_loop inDict outDict keys m).2 = stdout m ∧
  length (heap (merge_loop inDict outDict keys m).2) = length (heap m).
Proof.
  revert m. induction keys as [|k keys IH]; intros m; [done|].
  simpl. unfold bind, dict_getitem, dict_setitem, bind, load, lift, store, modify.
  destruct (heap m !! inDict) as [d|]; [|done].
  destruct (od_getitem k d) as [v|]; [|done].
  destruct (heap m !! outDict) as [o|]; [|done].
  destruct (IH {| heap := <[outDict:=od_set k v o]> (heap m);
                  stdout := stdout m |}) as [Hs Hl].
  split; [exact Hs|]. rewrite Hl. simpl. by rewrite length_insert.
Qed.

(** The pairs of a well-formed copy win over the converted ones. *)
Lemma merged_get (d' conv : odict vec) k :
  od_wf d' →
  od_get k (fold_left (λ o kv, od_set kv.1 kv.2 o) d' conv) =
  match od_get k d' with Some x => Some x | None => od_get k conv end.
Proof. intros Hwf. by rewrite od_fold_get, last_set_wf. Qed.

(** Whatever happens after the input has been found, the input has been
    printed once; a call that returns has allocated the copy and the
    result, and returns the latter. *)
Lemma mapXDictToDVGeo_outcome (matvec : matrix → vec → vec) self
    (inDict : loc) (m : Mem) (d : odict vec) :
  heap m !! inDict = Some d →
  stdout (mapXDictToDVGeo matvec self inDict m).2 = stdout m ++ [d] ∧
  ∀ l, (mapXDictToDVGeo matvec self inDict m).1 = Ok l →
       l = S (length (heap m)) ∧
       length (heap (mapXDictToDVGeo matvec self inDict m).2) =
         length (heap m) + 2.
Proof.
  intros Hd.
  remember (mapXDictToDVGeo matvec self inDict m) as r eqn:Hr.
  rewrite (mapXDictToDVGeo_prefix _ _ _ _ _ Hd) in Hr. simpl in Hr.
  destruct (attr_name (DVComposite self)) as [cname|e]; [|by subst r].
  destruct (od_get cname d) as [v|] eqn:Hget.
  - erewrite bind_ok in Hr;
      [| eapply dict_pop_ok; [by apply list_lookup_middle | exact Hget]].
    simpl in Hr. rewrite insert_snoc1 in Hr.
    unfold bind at 1, lift at 1 in Hr.
    destruct (mapVecToDVGeo matvec self v) as [outVec|e]; [|by subst r].
    unfold bind at 1 2, lift at 1, alloc at 1 in Hr. simpl in Hr.
    rewrite <- app_assoc, length_app in Hr. simpl in Hr.
    rewrite Nat.add_1_r in Hr.
    erewrite bind_ok in Hr;
      [| apply dict_keys_run; simpl; apply lookup_snoc2_0].
    unfold bind, ret in Hr.
    match type of Hr with
    | context [merge_loop ?a ?b ?ks ?st] =>
        pose proof (merge_loop_keeps a b ks st) as [Hout Hlen];
        destruct (merge_loop a b ks st) as [[[]|e] m']
    end; subst r; simpl in *.
    + split; [exact Hout|]. intros l [= <-]. split; [done|].
      rewrite Hlen, length_app. simpl. lia.
    + split; [exact Hout|]. done.
  - erewrite bind_raise in Hr;
      [| eapply dict_pop_missing; [by apply list_lookup_middle | exact Hget]].
    by subst r.
Qed.

(** X10: the keys of the returned dictionary come in this order: first
    the keys of the converted dictionary, in its order, then the caller's
    remaining keys, the composite name and the keys already present left
    out, in the caller's order. *)
Theorem mapXDictToDVGeo_key_order (matvec : matrix → vec → vec) self
    (inDict : loc) (m : Mem) (d : odict vec) (dc : CompositeDV) (userVec : vec) :
  DVComposite self = Some dc →
  heap m !! inDict = Some d →
  od_wf d →
  od_get (name (cdv dc)) d = Some userVec →
  ∃ outDict out outVec conv,
    mapVecToDVGeo matvec self userVec = Ok outVec ∧
    convertSensitivityToDict self [outVec] = Ok conv ∧
    (mapXDictToDVGeo matvec self inDict m).1 = Ok outDict ∧
    heap (mapXDictToDVGeo matvec self inDict m).2 !! outDict = Some out ∧
    od_keys out =
      od_keys conv ++
      filter (λ k, k ∉ od_keys conv)
        (filter (λ k, k ≠ name (cdv dc)) (od_keys d)).
Proof.
  intros Hdc Hd Hwf Hget.
  rewrite (mapXDictToDVGeo_run matvec self inDict m d dc userVec) by done.
  unfold mapVecToDVGeo, convertSensitivityToDict. rewrite Hdc. simpl.
  do 4 eexists. split; [done|]. split; [done|]. split; [done|].
  split; [apply lookup_snoc2_1|].
  rewrite od_fold_keys. f_equal.
  rewrite first_occ_NoDup by (by apply od_wf_del).
  change ((od_del (name (cdv dc)) d).*1) with (od_keys (od_del (name (cdv dc)) d)).
  by rewrite od_keys_del.
Qed.

(** X11: [mapXDictToDVGeo] does not take its own result: the returned
    dictionary has lost the composite key, so mapping it again raises
    [KeyError], the composite DV not sharing its name with an individual
    DV. *)
Theorem mapXDictToDVGeo_twice (matvec : matrix → vec → vec) self
    (inDict : loc) (m : Mem) (d : odict vec) (dc : CompositeDV) (userVec : vec) :
  DVComposite self = Some dc →
  name (cdv dc) ∉ od_keys (DVs self) →
  heap m !! inDict = Some d →
  od_wf d →
  od_get (name (cdv dc)) d = Some userVec →
  ∃ outDict,
    (mapXDictToDVGeo matvec self inDict m).1 = Ok outDict ∧
    (mapXDictToDVGeo matvec self outDict
       (mapXDictToDVGeo matvec self inDict m).2).1 =
    Raise (KeyError (name (cdv dc))).
Proof.
  intros Hdc Hname Hd Hwf Hget.
  rewrite (mapXDictToDVGeo_run matvec self inDict m d dc userVec) by done.
  eexists. split; [done|]. simpl.
  erewrite mapXDictToDVGeo_prefix by (simpl; apply lookup_snoc2_1).
  rewrite Hdc. simpl.
  erewrite bind_raise; [done|].
  eapply dict_pop_missing; [by apply list_lookup_middle|].
  rewrite merged_get by (by apply od_wf_del).
  rewrite od_get_del, decide_True by done.
  apply od_get_None. rewrite sens_slices_keys. intros [H|H]; [|done].
  by apply elem_of_nil in H.
Qed.

(** X12: [mapXDictToDVGeo] prints its input dictionary, once and before
    anything else: whatever the outcome of the call, the output has grown
    by exactly the input as it was at the time of the call. *)
Theorem mapXDictToDVGeo_prints_input (matvec : matrix → vec → vec) self
    (inDict : loc) (m : Mem) (d : odict vec) :
  heap m !! inDict = Some d →
  stdout (mapXDictToDVGeo matvec self inDict m).2 = stdout m ++ [d].
Proof.
  intros Hd. by destruct (mapXDictToDVGeo_outcome matvec self inDict m d Hd).
Qed.

(** X13: with no composite DV in [DVComposite], [mapXDictToDVGeo] raises
    [AttributeError] whatever the dictionary holds; by then the input has
    been printed and copied. *)
Theorem mapXDictToDVGeo_no_composite (matvec : matrix → vec → vec) self
    (inDict : loc) (m : Mem) (d : odict vec) :
  DVComposite self = None →
  heap m !! inDict = Some d →
  mapXDictToDVGeo matvec self inDict m =
  (Raise (AttributeError "name"),
   mkMem (heap m ++ [d]) (stdout m ++ [d])).
Proof.
  intros Hdc Hd. rewrite (mapXDictToDVGeo_prefix _ _ _ _ _ Hd). by rewrite Hdc.
Qed.

(** ** Writing point sets: the name of the file *)

Lemma string_app_assoc (a b c : string) : (a +:+ b) +:+ c = a +:+ b +:+ c.
Proof.
  induction a as [|x a IH]; [reflexivity|].
  change (String x ((a +:+ b) +:+ c) = String x (a +:+ b +:+ c)).
  by rewrite IH.
Qed.

(** X14: the file name does not tell the base path from the point-set
    name: writing point set [b] under the base path [p_a] and writing
    point set [a_b] under the base path [p] go to the same file,
    [p_a_b.dat]. *)
Theorem writePointSet_same_file
    (update : DVGeoSketch Comm → string → Res coords)
    (open_fault : string → option exn)
    (write_fault : string → coords → option exn)
    self (p a b : string) (c1 c2 : coords) (fs : FS) :
  update self b = Ok c1 →
  update self (a +:+ "_" +:+ b) = Ok c2 →
  open_fault (p +:+ "_" +:+ a +:+ "_" +:+ b +:+ ".dat") = None →
  write_fault b c1 = None →
  write_fault (a +:+ "_" +:+ b) c2 = None →
  contents (writePointSet update open_fault write_fault self
              b (p +:+ "_" +:+ a) fs).2
    !! (p +:+ "_" +:+ a +:+ "_" +:+ b +:+ ".dat") = Some (3, [(b, c1)]) ∧
  contents (writePointSet update open_fault write_fault self
              (a +:+ "_" +:+ b) p fs).2
    !! (p +:+ "_" +:+ a +:+ "_" +:+ b +:+ ".dat") =
    Some (3, [(a +:+ "_" +:+ b, c2)]).
Proof.
  intros Hu1 Hu2 Ho Hw1 Hw2.
  assert ((p +:+ "_" +:+ a) +:+ "_" +:+ b +:+ ".dat" =
          p +:+ "_" +:+ a +:+ "_" +:+ b +:+ ".dat") as E1.
  { by rewrite !string_app_assoc. }
  assert (p +:+ "_" +:+ (a +:+ "_" +:+ b) +:+ ".dat" =
          p +:+ "_" +:+ a +:+ "_" +:+ b +:+ ".dat") as E2.
  { by rewrite !string_app_assoc. }
  split.
  - rewrite (writePointSet_returns update open_fault write_fault self
               b (p +:+ "_" +:+ a) fs c1 Hu1) by (by rewrite ?E1).
    simpl. rewrite E1. by rewrite lookup_insert_eq.
  - rewrite (writePointSet_returns update open_fault write_fault self
               (a +:+ "_" +:+ b) p fs c2 Hu2) by (by rewrite ?E2).
    simpl. rewrite E2. by rewrite lookup_insert_eq.
Qed.

End MoreMapping.

(** ** The further properties on the scenario *)

Lemma addVariablesPyOpt_noncomposite_witness :
  addVariablesPyOpt Scenario.to_composite Scenario.plain [] =
    (Ok tt, [varGroup_of Scenario.twist; varGroup_of Scenario.shape]) ∧
  conGroupWrts [varGroup_of Scenario.twist; varGroup_of Scenario.shape] = [] ∧
  length [varGroup_of Scenario.twist; varGroup_of Scenario.shape] = 2.
Proof.
  exact (addVariablesPyOpt_noncomposite Scenario.to_composite Scenario.plain []
           eq_refl (od_of_inserts_wf Scenario.inserts)).
Defined.

Lemma addVariablesPyOpt_composite_unset_witness :
  addVariablesPyOpt Scenario.to_composite Cases.flag_only [] =
    (Raise (AttributeError "name"), []) ∧
  is_ok (addVariablesPyOpt Scenario.to_composite Cases.half []).1 = false ∧
  (addVariablesPyOpt Scenario.to_composite Cases.half []).2 =
    [varGroup_of (cdv Scenario.pca)].
Proof.
  split.
  - exact (proj1 (addVariablesPyOpt_composite_unset Scenario.to_composite
                    Cases.flag_only [] eq_refl
                    (od_of_inserts_wf Scenario.inserts)) eq_refl).
  - exact (proj2 (addVariablesPyOpt_composite_unset Scenario.to_composite
                    Cases.half [] eq_refl
                    (od_of_inserts_wf Scenario.inserts))
             Scenario.pca eq_refl eq_refl).
Defined.

Lemma addVariablesPyOpt_names_getVarNames_witness :
  (∃ new,
     addVariablesPyOpt Scenario.to_composite Scenario.plain [] = (Ok tt, new) ∧
     getVarNames Scenario.plain true = Ok (varGroupNames new)) ∧
  (∃ new,
     addVariablesPyOpt Scenario.to_composite Scenario.composite [] = (Ok tt, new) ∧
     getVarNames Scenario.composite true = Ok (varGroupNames new)).
Proof.
  assert (keyed_by_name (od_of_inserts Scenario.inserts)) as Hkeyed.
  { repeat constructor. }
  split.
  - apply (addVariablesPyOpt_names_getVarNames Scenario.to_composite
             Scenario.plain [] Hkeyed (od_of_inserts_wf Scenario.inserts)).
    intros H. discriminate H.
  - apply (addVariablesPyOpt_names_getVarNames Scenario.to_composite
             Scenario.composite [] Hkeyed (od_of_inserts_wf Scenario.inserts)).
    intros _. split; eexists; reflexivity.
Defined.

Lemma addVariablesPyOpt_wrt_witness :
  ∃ new,
    addVariablesPyOpt Scenario.to_composite Scenario.composite [] = (Ok tt, new) ∧
    varGroupNames new = ["pca"] ∧
    conGroupWrts new = ["pca"] ∧
    (conGroupWrts new ⊆ varGroupNames new ↔ "pca" = "pca").
Proof.
  exact (addVariablesPyOpt_wrt Scenario.to_composite Scenario.composite
           Scenario.pca Scenario.pca [] eq_refl eq_refl eq_refl
           (od_of_inserts_wf Scenario.inserts)).
Defined.

Lemma getVarNames_keys_getValues_witness :
  ∃ dvDict, getValues Scenario.no_comp Scenario.plain = Ok dvDict ∧
    getVarNames Scenario.plain true = Ok (od_keys dvDict).
Proof.
  exact (getVarNames_keys_getValues Scenario.no_comp Scenario.plain true
           eq_refl (od_of_inserts_wf Scenario.inserts)).
Defined.

Lemma getValues_composite_witness :
  getValues Scenario.no_comp Scenario.composite =
  Scenario.no_comp Scenario.composite
    [("twist", [0; 1; 2]%float); ("shape", [0.5]%float)].
Proof.
  exact (getValues_composite Scenario.no_comp Scenario.composite eq_refl
           (od_of_inserts_wf Scenario.inserts)).
Defined.

Lemma init_succeeds_iff_witness :
  __init__ (Comm := unit) Cases.failing_super "wing.vsp3" tt 0%float 0.25%float =
  Raise (OSError "wing.vsp3").
Proof.
  exact (proj2 (init_succeeds_iff Cases.failing_super "wing.vsp3" tt
                  0%float 0.25%float) _ eq_refl).
Defined.

Lemma init_fresh_witness :
  let sup := λ f, Ok (mkBaseAttrs f None) in
  ∃ self : DVGeoSketch unit,
    __init__ sup "wing.vsp3" tt 0.5%float 0.25%float = Ok self ∧
    getValues Scenario.no_comp self = Ok [] ∧
    getVarNames self true = Ok [] ∧
    addVariablesPyOpt Scenario.to_composite self [] = (Ok tt, []).
Proof.
  eexists. split; [reflexivity|].
  exact (init_fresh (λ f, Ok (mkBaseAttrs f None)) Scenario.no_comp
           Scenario.to_composite "wing.vsp3" tt 0.5%float 0.25%float _
           true [] eq_refl).
Defined.

Lemma mapXDictToDVGeo_key_order_witness :
  ∃ outDict out,
    (mapXDictToDVGeo Scenario.matvec Scenario.composite 0
       (mkMem [Scenario.xdict] [])).1 = Ok outDict ∧
    heap (mapXDictToDVGeo Scenario.matvec Scenario.composite 0
            (mkMem [Scenario.xdict] [])).2 !! outDict = Some out ∧
    od_keys out = ["twist"; "shape"; "alpha"].
Proof.
  destruct (mapXDictToDVGeo_key_order Scenario.matvec Scenario.composite 0
              (mkMem [Scenario.xdict] []) Scenario.xdict Scenario.pca
              [3; 4]%float eq_refl eq_refl (od_of_inserts_wf Scenario.xdict)
              eq_refl)
    as (outDict & out & outVec & conv & Hv & Hconv & Hr & Hh & Hkeys).
  exists outDict, out. split; [exact Hr|]. split; [exact Hh|].
  injection Hv as <-. injection Hconv as <-. exact Hkeys.
Defined.

Lemma mapXDictToDVGeo_twice_witness :
  ∃ outDict,
    (mapXDictToDVGeo Scenario.matvec Scenario.composite 0
       (mkMem [Scenario.xdict] [])).1 = Ok outDict ∧
    (mapXDictToDVGeo Scenario.matvec Scenario.composite outDict
       (mapXDictToDVGeo Scenario.matvec Scenario.composite 0
          (mkMem [Scenario.xdict] [])).2).1 = Raise (KeyError "pca").
Proof.
  assert ("pca" ∉ od_keys (DVs Scenario.composite)) as Hname.
  { apply od_get_None. reflexivity. }
  exact (mapXDictToDVGeo_twice Scenario.matvec Scenario.composite 0
           (mkMem [Scenario.xdict] []) Scenario.xdict Scenario.pca
           [3; 4]%float eq_refl Hname eq_refl
           (od_of_inserts_wf Scenario.xdict) eq_refl).
Defined.

Lemma mapXDictToDVGeo_prints_input_witness :
  stdout (mapXDictToDVGeo Scenario.matvec Scenario.composite 0
            (mkMem [Scenario.no_pca] [])).2 = [Scenario.no_pca] ∧
  stdout (mapXDictToDVGeo Scenario.matvec Scenario.composite 0
            (mkMem [Scenario.xdict] [])).2 = [Scenario.xdict].
Proof.
  split.
  - exact (mapXDictToDVGeo_prints_input Scenario.matvec Scenario.composite 0
             (mkMem [Scenario.no_pca] []) Scenario.no_pca eq_refl).
  - exact (mapXDictToDVGeo_prints_input Scenario.matvec Scenario.composite 0
             (mkMem [Scenario.xdict] []) Scenario.xdict eq_refl).
Defined.

Lemma mapXDictToDVGeo_no_composite_witness :
  mapXDictToDVGeo Scenario.matvec Scenario.plain 0 (mkMem [Scenario.xdict] []) =
  (Raise (AttributeError "name"),
   mkMem [Scenario.xdict; Scenario.xdict] [Scenario.xdict]).
Proof.
  exact (mapXDictToDVGeo_no_composite Scenario.matvec Scenario.plain 0
           (mkMem [Scenario.xdict] []) Scenario.xdict eq_refl eq_refl).
Defined.

Lemma writePointSet_same_file_witness :
  contents (writePointSet Cases.update2 Scenario.no_fault
              Scenario.no_write_fault Scenario.plain "c" "a_b"
              Scenario.empty_fs).2 !! "a_b_c.dat" =
    Some (3, [("c", Scenario.wing_pts)]) ∧
  contents (writePointSet Cases.update2 Scenario.no_fault
              Scenario.no_write_fault Scenario.plain "b_c" "a"
              Scenario.empty_fs).2 !! "a_b_c.dat" =
    Some (3, [("b_c", [[9; 9; 9]%float])]).
Proof.
  exact (writePointSet_same_file Cases.update2 Scenario.no_fault
           Scenario.no_write_fault Scenario.plain "a" "b" "c"
           Scenario.wing_pts [[9; 9; 9]%float] Scenario.empty_fs
           eq_refl eq_refl eq_refl eq_refl eq_refl).
Defined.

(** ** Where the two answers of [getVarNames] coincide, and where the
    composite name survives the mapping *)


(** The input holds the composite key [twist]; an individual DV is called
    [twist] too, and the returned dictionary holds the key [twist]. *)
Lemma mapXDictToDVGeo_keeps_composite_name :
  let r := mapXDictToDVGeo Scenario.matvec Cases.clash 0
             (mkMem [Cases.tdict] []) in
  DVComposite Cases.clash = Some Cases.twist_comp ∧
  od_get (name (cdv Cases.twist_comp)) Cases.tdict = Some [3; 4]%float ∧
  r.1 = Ok 2 ∧
  heap r.2 !! 2 =
    Some [("twist", [3; 4; 0]%float); ("shape", [0]%float);
          ("alpha", [7]%float)] ∧
  ∃ out, heap r.2 !! 2 = Some out ∧ name (cdv Cases.twist_comp) ∈ od_keys out.
Proof.
  intros r. split; [reflexivity|]. split; [reflexivity|].
  split; [reflexivity|]. split; [reflexivity|].
  eexists. split; [reflexivity|]. apply list_elem_of_here.
Qed.
